(** * Comic image processor: a verification development

    A shallow embedding of [utils/image_processor.py] (class
    [ComicImageProcessor]) and the theorems that settle the properties of its
    specification.

    Layout:
    - [Float64]: Python's [float] (IEEE 754 binary64, round to nearest, ties to
      even) as integers counted in units of 2^-1074, with the arithmetic the
      processor uses ([int / int], [int * float], [int(float)], [min], [<]);
    - [PyStr], [PurePath]: the part of [str], [os.path] and [pathlib] the
      processor uses;
    - the methods of [ComicImageProcessor] as programs ([prog]) over the calls
      they make to Pillow and the file system and the lines they print;
      [run_io], which runs a program in any world and on any standard output
      and records what happened, and [run], the run on a standard output that
      takes every line;
    - [Sandbox]: a small world for the examples;
    - facts about the rounding, the resize arithmetic, the methods and the
      paths;
    - the properties of the specification, C1 to C10, and further properties
      of the code. *)

From Stdlib Require Import ZArith List String Ascii Bool Lia.
From Stdlib Require Floats.SpecFloat.
From Stdlib Require DecimalString.
Import ListNotations.

Local Open Scope string_scope.
Local Open Scope Z_scope.

(** ** Exceptions and results *)

(** The exceptions the modelled code can meet.  All of them derive from
    Python's [Exception], so the [except Exception] of [batch_optimize]
    catches every one.  [LibraryError] stands for whatever Pillow or the
    operating system raises ([FileNotFoundError], [UnidentifiedImageError],
    [OSError], [ValueError], ...), by class name and message. *)
Inductive exn : Type :=
| ZeroDivisionError (msg : string)
| OverflowError (msg : string)
| RuntimeError (msg : string)
| LibraryError (cls msg : string).

(** [str(e)] *)
Definition exn_str (e : exn) : string :=
  match e with
  | ZeroDivisionError m | OverflowError m | RuntimeError m | LibraryError _ m => m
  end.

Inductive result (A : Type) : Type :=
| Ok (a : A)
| Err (e : exn).
Arguments Ok {A} a.
Arguments Err {A} e.

Definition is_ok {A} (r : result A) : bool :=
  match r with Ok _ => true | Err _ => false end.

Definition rbind {A B} (r : result A) (k : A -> result B) : result B :=
  match r with Ok a => k a | Err e => Err e end.

(** ** Python floats *)

Module Float64.

(** A finite binary64 number is an integer multiple of 2^-1074 (the smallest
    subnormal) with at most 53 significant bits and magnitude below 2^1024.
    A [float] here is that multiple: the value [x : float] stands for the real
    number [x * 2^-1074].  Infinities and NaN never reach a variable of the
    modelled code: every operation that would produce one raises first or is
    followed by the [int()] that raises on it (see [float_mul]). *)
Definition float : Type := Z.

(** 1.0 *)
Definition one : float := 2 ^ 1074.

(** First magnitude that is out of range: 2^1024. *)
Definition out_of_range : Z := 2 ^ 2098.

(** [rne n d]: the integer nearest to [n / d], ties to the even one
    ([0 <= n], [0 < d]). *)
Definition rne (n d : Z) : Z :=
  let q := n / d in
  let r := n mod d in
  if 2 * r <? d then q
  else if d <? 2 * r then q + 1
  else if Z.even q then q else q + 1.

(** [round_pos n d]: the rational [n / d], counted in units, rounded to a
    multiple of [2 ^ s], where [s] leaves 53 bits to the significand (and is 0
    in the subnormal range). *)
Definition round_pos (n d : Z) : Z :=
  let s := Z.max 0 (Z.log2 (n / d) - 52) in
  rne n (d * 2 ^ s) * 2 ^ s.

(** Rounding is symmetric around zero. *)
Definition round (n d : Z) : Z :=
  if n <? 0 then - round_pos (- n) d else round_pos n d.

Definition finite (msg : string) (x : Z) : result float :=
  if Z.abs x <? out_of_range then Ok x else Err (OverflowError msg).

(** [a / b] on two [int]s: the correctly rounded quotient. *)
Definition int_truediv (a b : Z) : result float :=
  if b =? 0 then Err (ZeroDivisionError "division by zero")
  else finite "integer division result too large for a float"
         (round (Z.sgn b * a * one) (Z.abs b)).

(** [float(a)], the conversion [a * x] applies to its [int] operand. *)
Definition of_int (a : Z) : result float :=
  finite "int too large to convert to float" (round (a * one) 1).

(** [x * y] on two floats.  An IEEE overflow gives an infinity, on which the
    enclosing [int(...)] raises [OverflowError]; the model raises it here, at
    the same statement. *)
Definition float_mul (x y : float) : result float :=
  finite "cannot convert float infinity to integer" (round (x * y) one).

(** [a * y] with [a] an [int] and [y] a [float]. *)
Definition int_mul_float (a : Z) (y : float) : result float :=
  rbind (of_int a) (fun x => float_mul x y).

(** [int(x)]: truncation towards zero. *)
Definition int_of_float (x : float) : Z := Z.quot x one.

(** [x < y] *)
Definition ltb (x y : float) : bool := x <? y.

(** [min(a, b, c)]: the first of the smallest. *)
Definition min3 (a b c : float) : float :=
  let m := if ltb b a then b else a in
  if ltb c m then c else m.

(** The finite binary64 numbers, in units. *)
Definition representable (x : Z) : Prop :=
  exists m k, 0 <= k /\ Z.abs m <= 2 ^ 53 /\ x = m * 2 ^ k.

(** 2^-53, the spacing of the floats just below 1.0: [one] is 2^53 steps. *)
Definition step : Z := 2 ^ 1021.

(** The largest finite float, which is an integer. *)
Definition DBL_MAX : Z := (2 ^ 53 - 1) * 2 ^ 971.

(** The same numbers in the Standard Library's specification of IEEE 754
    arithmetic, to compare the operations above with ([Float64Facts]). *)
Definition ieee_of_int (a : Z) : SpecFloat.spec_float :=
  SpecFloat.binary_normalize 53 1024 a 0 false.

Definition units_of_ieee (f : SpecFloat.spec_float) : option Z :=
  match f with
  | SpecFloat.S754_zero _ => Some 0
  | SpecFloat.S754_finite s m e =>
      Some ((if s then -1 else 1) * Z.pos m * 2 ^ (e + 1074))
  | _ => None
  end.

End Float64.

(** ** Strings and paths *)

Module PyStr.

(** [s.startswith(p)] *)
Fixpoint startswith (p s : string) : bool :=
  match p, s with
  | EmptyString, _ => true
  | String a p', String b s' => Ascii.eqb a b && startswith p' s'
  | String _ _, EmptyString => false
  end.

(** [s.endswith(p)] *)
Fixpoint endswith (p s : string) : bool :=
  String.eqb p s ||
  match s with
  | EmptyString => false
  | String _ s' => endswith p s'
  end.

(** [s.split(sep)] for a one-character separator: never the empty list. *)
Fixpoint split (sep : ascii) (s : string) : list string :=
  match s with
  | EmptyString => [EmptyString]
  | String c s' =>
      if Ascii.eqb c sep then EmptyString :: split sep s'
      else match split sep s' with
           | h :: t => String c h :: t
           | [] => [String c EmptyString]
           end
  end.

(** [sep.join(parts)] *)
Fixpoint join (sep : string) (parts : list string) : string :=
  match parts with
  | [] => EmptyString
  | [p] => p
  | p :: rest => p ++ sep ++ join sep rest
  end.

(** [s.rfind(c)] for a one-character [c]: the last index of [c], or -1. *)
Fixpoint rfind (c : ascii) (s : string) : Z :=
  match s with
  | EmptyString => -1
  | String a s' =>
      let r := rfind c s' in
      if 0 <=? r then r + 1
      else if Ascii.eqb a c then 0 else -1
  end.

(** [len(s)] *)
Definition len (s : string) : Z := Z.of_nat (String.length s).

(** [s[:i]] and [s[i:]] for [0 <= i]. *)
Fixpoint take (i : nat) (s : string) : string :=
  match i, s with
  | S i', String c s' => String c (take i' s')
  | _, _ => EmptyString
  end.

Fixpoint drop (i : nat) (s : string) : string :=
  match i, s with
  | S i', String _ s' => drop i' s'
  | _, _ => s
  end.

(** [c in s] for a one-character [c]. *)
Fixpoint contains (c : ascii) (s : string) : bool :=
  match s with
  | EmptyString => false
  | String a s' => Ascii.eqb a c || contains c s'
  end.

(** [s.lower()] on the ASCII letters.  Python lowers other letters too; none
    of them lowers to a letter of the extensions tested by [batch_optimize]
    that would make a difference (no supported extension holds a [k]). *)
Definition lower_ascii (c : ascii) : ascii :=
  let n := nat_of_ascii c in
  if (65 <=? n)%nat && (n <=? 90)%nat then ascii_of_nat (n + 32) else c.

Fixpoint lower (s : string) : string :=
  match s with
  | EmptyString => EmptyString
  | String c s' => String (lower_ascii c) (lower s')
  end.

End PyStr.

(** [os.path.join(a, b)] of [posixpath]. *)
Definition os_path_join (a b : string) : string :=
  if PyStr.startswith "/" b then b
  else if String.eqb a "" || PyStr.endswith "/" a then a ++ b
  else a ++ "/" ++ b.

(** [pathlib.PurePosixPath]: a root ([""], ["/"] or ["//"]) and the components
    after it. *)
Module PurePath.

Record t : Type := mk { root : string; parts : list string }.

(** The components kept by the parser: neither empty nor ["."]. *)
Definition kept (x : string) : bool :=
  negb (String.eqb x "") && negb (String.eqb x ".").

(** [Path(s)]: exactly two leading slashes are kept as the root ["//"], any
    other number of them is the root ["/"]. *)
Definition parse (s : string) : t :=
  {| root := if PyStr.startswith "/" s then
               if PyStr.startswith "//" s && negb (PyStr.startswith "///" s)
               then "//" else "/"
             else "";
     parts := filter kept (PyStr.split "/" s) |}.

(** [str(p)] *)
Definition str (p : t) : string :=
  match root p, parts p with
  | EmptyString, [] => "."
  | r, ps => r ++ PyStr.join "/" ps
  end.

(** [p.name]: the last component, [""] when there is none. *)
Definition name (p : t) : string := last (parts p) "".

(** [p.parent]: a path without components is its own parent. *)
Definition parent (p : t) : t :=
  {| root := root p; parts := removelast (parts p) |}.

(** The index at which [p.suffix] starts, when the name has a suffix: the last
    dot, unless it is the first or the last character of the name. *)
Definition suffix_index (nm : string) : option nat :=
  let i := PyStr.rfind "." nm in
  if (0 <? i) && (i <? PyStr.len nm - 1) then Some (Z.to_nat i) else None.

(** [p.suffix] *)
Definition suffix (p : t) : string :=
  match suffix_index (name p) with
  | Some i => PyStr.drop i (name p)
  | None => ""
  end.

(** [p.stem] *)
Definition stem (p : t) : string :=
  match suffix_index (name p) with
  | Some i => PyStr.take i (name p)
  | None => name p
  end.

(** [p / s] *)
Definition joinpath (p : t) (s : string) : t :=
  let q := parse s in
  if String.eqb (root q) "" then {| root := root p; parts := parts p ++ parts q |}
  else q.

(** The child that [iterdir] yields for the directory entry [nm]. *)
Definition make_child (p : t) (nm : string) : t :=
  {| root := root p; parts := parts p ++ [nm] |}.

(** What the parser produces: one of the three roots, and components that
    hold no slash and are neither empty nor ["."]. *)
Definition component (x : string) : Prop :=
  PyStr.contains "/" x = false /\ kept x = true.

Definition well_formed (p : t) : Prop :=
  (root p = "" \/ root p = "/" \/ root p = "//") /\ Forall component (parts p).

End PurePath.

(** ** Pillow images and the calls to the outside *)

Module Image.

(** What the code reads of a decoded [PIL.Image.Image]: [mode], [size] and
    [format]; [pixels] stands for its raster, which the code never inspects. *)
Record t : Type := mk {
  mode : string;
  size : Z * Z;
  format : option string;
  pixels : list Z
}.

Definition width (im : t) : Z := fst (size im).
Definition height (im : t) : Z := snd (size im).

End Image.

(** [PIL.Image.Resampling] *)
Inductive Resampling : Type :=
| NEAREST | LANCZOS | BILINEAR | BICUBIC | BOX | HAMMING.

(** The calls the processor makes to Pillow and to the file system, indexed by
    the type of what they return.  Every one of them may raise.
    [Image_thumbnail] works in place in Python; here it returns the image as
    it is afterwards. *)
Inductive call : Type -> Type :=
| Image_open (fp : string) : call Image.t
| Image_convert (im : Image.t) (mode : string) : call Image.t
| Image_resize (im : Image.t) (size : Z * Z) (resample : Resampling) : call Image.t
| Image_thumbnail (im : Image.t) (size : Z * Z) (resample : Resampling) : call Image.t
| Image_save (im : Image.t) (fp format : string) (quality : Z) (optimize : bool) : call unit
| Image_close (im : Image.t) : call unit
| Path_mkdir (p : PurePath.t) (parents exist_ok : bool) : call unit
| os_listdir (p : PurePath.t) : call (list string)
| os_path_getsize (fp : string) : call Z.

(** A method body: a tree of calls.  [Call c k] makes the call [c] and goes on
    with [k] on its outcome; [Print line k] is [print(line)], which writes the
    line to standard output or raises (the stream is closed, or cannot encode
    the line), and goes on with [k] on its outcome; [Raise] is an exception on
    its way out. *)
Inductive prog (A : Type) : Type :=
| Ret (a : A)
| Raise (e : exn)
| Print (line : string) (k : result unit -> prog A)
| Call {R : Type} (c : call R) (k : result R -> prog A).
Arguments Ret {A} a.
Arguments Raise {A} e.
Arguments Print {A} line k.
Arguments Call {A R} c k.

Fixpoint bind {A B} (p : prog A) (f : A -> prog B) : prog B :=
  match p with
  | Ret a => f a
  | Raise e => Raise e
  | Print l k => Print l (fun r => bind (k r) f)
  | Call c k => Call c (fun r => bind (k r) f)
  end.

Notation "x <- p ;; k" := (bind p (fun x => k))
  (at level 61, p at next level, right associativity).
Notation "p ;;; k" := (bind p (fun _ => k))
  (at level 61, right associativity).

(** A call whose exception propagates. *)
Definition call_ {R} (c : call R) : prog R :=
  Call c (fun r => match r with Ok v => Ret v | Err e => Raise e end).

(** [print(line)]: its exception propagates like any other. *)
Definition print (line : string) : prog unit :=
  Print line (fun r => match r with Ok u => Ret u | Err e => Raise e end).

(** A pure computation that may raise. *)
Definition lift {A} (r : result A) : prog A :=
  match r with Ok a => Ret a | Err e => Raise e end.

(** [try: p / except Exception as e: h e] *)
Fixpoint try_except {A} (p : prog A) (h : exn -> prog A) : prog A :=
  match p with
  | Ret a => Ret a
  | Raise e => h e
  | Print l k => Print l (fun r => try_except (k r) h)
  | Call c k => Call c (fun r => try_except (k r) h)
  end.

(** The outcome of [p], reified. *)
Definition attempt {A} (p : prog A) : prog (result A) :=
  try_except (a <- p ;; Ret (Ok a)) (fun e => Ret (Err e)).

(** [try: s1; s2; ... / except Exception as e: handler], for statements that
    update a local variable: when a statement raises, the handler finds the
    variable as the statements before it left it. *)
Fixpoint try_block {S} (s : S) (statements : list (S -> prog S))
    (handler : S -> exn -> prog S) : prog S :=
  match statements with
  | [] => Ret s
  | statement :: more =>
      r <- attempt (statement s) ;;
      match r with
      | Ok s' => try_block s' more handler
      | Err e => handler s e
      end
  end.

(** [with Image.open(fp) as img: body]: the opened image is closed on every
    way out of [body]. *)
Definition with_Image_open {A} (fp : string) (body : Image.t -> prog A) : prog A :=
  img <- call_ (Image_open fp) ;;
  r <- attempt (body img) ;;
  call_ (Image_close img) ;;;
  lift r.

(** *** Running a program *)

(** What happened, in order: the calls with their outcomes, the printed
    lines, and the lines whose [print] raised. *)
Inductive event : Type :=
| EvCall {R : Type} (c : call R) (r : result R)
| EvPrint (line : string)
| EvPrintFailed (line : string) (e : exn).

(** The outside world: a state of type [W] and its answer to every call. *)
Definition world (W : Type) : Type := forall R, call R -> W -> result R * W.

(** The standard output: what becomes of a line given to [print]. *)
Definition stdout (W : Type) : Type := string -> W -> result unit * W.

(** A standard output that takes every line. *)
Definition accepts {W} (out : stdout W) : Prop :=
  forall (line : string) (w : W), out line w = (Ok tt, w).

(** The run of a program in a world, on a standard output. *)
Fixpoint run_io {W A} (out : stdout W) (h : world W) (p : prog A) (w : W)
    : result A * W * list event :=
  match p with
  | Ret a => (Ok a, w, [])
  | Raise e => (Err e, w, [])
  | Print l k =>
      let (x, w1) := out l w in
      let '(r, w', t) := run_io out h (k x) w1 in
      (r, w', match x with Ok _ => EvPrint l | Err e => EvPrintFailed l e end :: t)
  | Call c k =>
      let (x, w1) := h _ c w in
      let '(r, w', t) := run_io out h (k x) w1 in (r, w', EvCall c x :: t)
  end.

(** The run on a standard output that takes every line (see
    [run_io_accepts]). *)
Fixpoint run {W A} (h : world W) (p : prog A) (w : W) : result A * W * list event :=
  match p with
  | Ret a => (Ok a, w, [])
  | Raise e => (Err e, w, [])
  | Print l k =>
      let '(r, w', t) := run h (k (Ok tt)) w in (r, w', EvPrint l :: t)
  | Call c k =>
      let (x, w1) := h _ c w in
      let '(r, w', t) := run h (k x) w1 in (r, w', EvCall c x :: t)
  end.

(** ** The processor *)

(** [ComicImageProcessor]: the three attributes set by [__init__]. *)
Record ComicImageProcessor : Type := {
  max_width : Z;
  max_height : Z;
  quality : Z
}.

(** [__init__(self, max_width=1200, max_height=1800, quality=85)] *)
Definition __init__ (max_width max_height quality : option Z) : ComicImageProcessor :=
  {| max_width := match max_width with Some v => v | None => 1200 end;
     max_height := match max_height with Some v => v | None => 1800 end;
     quality := match quality with Some v => v | None => 85 end |}.

(** [get_image_info]'s dictionary. *)
Module ImageInfo.
Record t : Type := mk {
  width : Z;
  height : Z;
  format : option string;
  mode : string;
  file_size : Z
}.
End ImageInfo.

(** [x in xs] on strings *)
Definition str_in (x : string) (xs : list string) : bool :=
  existsb (String.eqb x) xs.

Section Methods.

(** The module-level flag set by the import of Pillow. *)
Variable PIL_AVAILABLE : bool.

Import Float64.

Definition _generate_output_path (self : ComicImageProcessor)
    (input_path : string) (suffix : option string) : string :=
  let suffix := match suffix with Some s => s | None => "_optimized" end in
  let path := PurePath.parse input_path in
  PurePath.str
    (PurePath.joinpath (PurePath.parent path) (PurePath.stem path ++ suffix ++ ".jpg")).

Definition optimize_image (self : ComicImageProcessor)
    (input_path : string) (output_path : option string) : prog string :=
  if negb PIL_AVAILABLE then
    Raise (RuntimeError "Pillow library is required for image processing")
  else
    let output_path :=
      match output_path with
      | None => _generate_output_path self input_path None
      | Some p => p
      end in
    with_Image_open input_path (fun img =>
      img <- (if str_in (Image.mode img) ["RGBA"; "LA"; "P"]
              then call_ (Image_convert img "RGB") else Ret img) ;;
      let '(original_width, original_height) := Image.size img in
      width_ratio <- lift (int_truediv (max_width self) original_width) ;;
      height_ratio <- lift (int_truediv (max_height self) original_height) ;;
      let resize_ratio := min3 width_ratio height_ratio one in
      img <- (if ltb resize_ratio one then
                x <- lift (int_mul_float original_width resize_ratio) ;;
                let new_width := int_of_float x in
                y <- lift (int_mul_float original_height resize_ratio) ;;
                let new_height := int_of_float y in
                call_ (Image_resize img (new_width, new_height) LANCZOS)
              else Ret img) ;;
      call_ (Image_save img output_path "JPEG" (quality self) true)) ;;;
    Ret output_path.

Definition create_thumbnail (self : ComicImageProcessor)
    (input_path : string) (output_path : option string) (size : option (Z * Z))
    : prog string :=
  let size := match size with Some s => s | None => (400, 600) end in
  if negb PIL_AVAILABLE then
    Raise (RuntimeError "Pillow library is required for image processing")
  else
    let output_path :=
      match output_path with
      | None => _generate_output_path self input_path (Some "_thumb")
      | Some p => p
      end in
    with_Image_open input_path (fun img =>
      img <- (if str_in (Image.mode img) ["RGBA"; "LA"; "P"]
              then call_ (Image_convert img "RGB") else Ret img) ;;
      img <- call_ (Image_thumbnail img size LANCZOS) ;;
      call_ (Image_save img output_path "JPEG" 90 true)) ;;;
    Ret output_path.

Definition supported_formats : list string :=
  [".jpg"; ".jpeg"; ".png"; ".webp"; ".bmp"].

(** The body of the [for] loop of [batch_optimize], from the entries still to
    visit and the list built so far.  The list is appended to before the
    [Optimized] line is printed: it keeps the path when that [print] raises.
    The [print] of the handler is outside the [try]: its exception leaves the
    loop. *)
Fixpoint batch_loop (self : ComicImageProcessor) (output_dir : string)
    (entries : list PurePath.t) (optimized_images : list string)
    : prog (list string) :=
  match entries with
  | [] => Ret optimized_images
  | file_path :: rest =>
      if str_in (PyStr.lower (PurePath.suffix file_path)) supported_formats then
        let output_path :=
          os_path_join output_dir (PurePath.stem file_path ++ ".jpg") in
        optimized_images <-
          try_block optimized_images
            [(fun optimized_images =>
                optimize_image self (PurePath.str file_path) (Some output_path) ;;;
                Ret optimized_images);
             (fun optimized_images =>
                Ret (optimized_images ++ [output_path])%list);
             (fun optimized_images =>
                print ("Optimized: " ++ PurePath.name file_path ++ " -> "
                       ++ output_path) ;;;
                Ret optimized_images)]
            (fun optimized_images e =>
               print ("Error processing " ++ PurePath.name file_path ++ ": "
                      ++ exn_str e) ;;;
               Ret optimized_images) ;;
        batch_loop self output_dir rest optimized_images
      else batch_loop self output_dir rest optimized_images
  end.

Definition batch_optimize (self : ComicImageProcessor)
    (input_dir : string) (output_dir : option string) : prog (list string) :=
  let output_dir :=
    match output_dir with
    | None => os_path_join input_dir "optimized"
    | Some d => d
    end in
  call_ (Path_mkdir (PurePath.parse output_dir) true true) ;;;
  names <- call_ (os_listdir (PurePath.parse input_dir)) ;;
  batch_loop self output_dir
    (map (PurePath.make_child (PurePath.parse input_dir)) names) [].

Definition get_image_info (self : ComicImageProcessor) (image_path : string)
    : prog ImageInfo.t :=
  if negb PIL_AVAILABLE then
    Raise (RuntimeError "Pillow library is required for image processing")
  else
    with_Image_open image_path (fun img =>
      file_size <- call_ (os_path_getsize image_path) ;;
      Ret {| ImageInfo.width := Image.width img;
             ImageInfo.height := Image.height img;
             ImageInfo.format := Image.format img;
             ImageInfo.mode := Image.mode img;
             ImageInfo.file_size := file_size |}).

End Methods.

(** The processor with the defaults of [__init__]. *)
Definition default_processor : ComicImageProcessor := __init__ None None None.

(** The condition raised when Pillow is missing. *)
Definition dependency_missing : exn :=
  RuntimeError "Pillow library is required for image processing".

(** *** The resize arithmetic on its own *)

(** [resize_ratio] as [optimize_image] computes it from the size it reads. *)
Definition resize_ratio (self : ComicImageProcessor) (size : Z * Z)
    : result Float64.float :=
  let '(original_width, original_height) := size in
  rbind (Float64.int_truediv (max_width self) original_width) (fun width_ratio =>
  rbind (Float64.int_truediv (max_height self) original_height) (fun height_ratio =>
  Ok (Float64.min3 width_ratio height_ratio Float64.one))).

(** What [optimize_image] decides from the size it reads: [None] when
    [resize_ratio < 1.0] does not hold, otherwise the size it hands to
    [img.resize].  [optimize_image_plan] below shows that the method makes
    exactly this decision. *)
Definition resize_plan (self : ComicImageProcessor) (size : Z * Z)
    : result (option (Z * Z)) :=
  rbind (resize_ratio self size) (fun resize_ratio =>
  if Float64.ltb resize_ratio Float64.one then
    rbind (Float64.int_mul_float (fst size) resize_ratio) (fun x =>
    let new_width := Float64.int_of_float x in
    rbind (Float64.int_mul_float (snd size) resize_ratio) (fun y =>
    let new_height := Float64.int_of_float y in
    Ok (Some (new_width, new_height))))
  else Ok None).

(** The pixel size of the image that reaches the encoder, for a resize that
    delivers the size it is asked for. *)
Definition output_size (self : ComicImageProcessor) (size : Z * Z)
    : result (Z * Z) :=
  rbind (resize_plan self size) (fun plan =>
  Ok (match plan with Some new_size => new_size | None => size end)).

(** The output path of a call of [optimize_image]. *)
Definition optimize_target (self : ComicImageProcessor) (inp : string)
    (out : option string) : string :=
  match out with
  | Some p => p
  | None => _generate_output_path self inp None
  end.

(** The output path of a call of [create_thumbnail]. *)
Definition thumbnail_target (self : ComicImageProcessor) (inp : string)
    (out : option string) : string :=
  match out with
  | Some p => p
  | None => _generate_output_path self inp (Some "_thumb")
  end.

(** The directory [batch_optimize] writes to. *)
Definition batch_target (input_dir : string) (output_dir : option string) : string :=
  match output_dir with
  | None => os_path_join input_dir "optimized"
  | Some d => d
  end.

(** *** The batch loop, entry by entry *)

(** The test of the loop of [batch_optimize] on a directory entry. *)
Definition selected (file_path : PurePath.t) : bool :=
  str_in (PyStr.lower (PurePath.suffix file_path)) supported_formats.

(** The output path the loop gives to an entry. *)
Definition batch_output_path (output_dir : string) (file_path : PurePath.t) : string :=
  os_path_join output_dir (PurePath.stem file_path ++ ".jpg").

(** The line the loop prints on an entry, by the outcome of its
    [optimize_image]. *)
Definition status_line (output_dir : string) (file_path : PurePath.t)
    (r : result string) : string :=
  match r with
  | Ok _ => "Optimized: " ++ PurePath.name file_path ++ " -> "
            ++ batch_output_path output_dir file_path
  | Err e => "Error processing " ++ PurePath.name file_path ++ ": " ++ exn_str e
  end.

(** The output paths of the entries whose [optimize_image] returned. *)
Definition successes (output_dir : string)
    (log : list (PurePath.t * result string)) : list string :=
  flat_map (fun x => if is_ok (snd x)
                     then [batch_output_path output_dir (fst x)] else []) log.

Section Visits.
Context {W : Type} (h : world W).
Variables (PIL_AVAILABLE : bool) (self : ComicImageProcessor) (output_dir : string).

(** [visits entries w log w' t]: going through [entries] from the world [w],
    one entry after the other, skips the entries that are not selected and
    runs [optimize_image] on each selected one, whatever became of the ones
    before; [log] holds the selected entries with the outcome of their
    [optimize_image], [w'] is the world at the end and [t] what happened. *)
Inductive visits :
  list PurePath.t -> W -> list (PurePath.t * result string) -> W -> list event -> Prop :=
| visits_done w : visits [] w [] w []
| visits_skip file_path rest w log w' t :
    selected file_path = false ->
    visits rest w log w' t ->
    visits (file_path :: rest) w log w' t
| visits_file file_path rest w r w1 t1 log w' t :
    selected file_path = true ->
    run h (optimize_image PIL_AVAILABLE self (PurePath.str file_path)
             (Some (batch_output_path output_dir file_path))) w = (r, w1, t1) ->
    visits rest w1 log w' t ->
    visits (file_path :: rest) w ((file_path, r) :: log) w'
      (t1 ++ EvPrint (status_line output_dir file_path r) :: t)%list.

End Visits.

(** ** Reading a run *)

Definition outcome {W A} (x : result A * W * list event) : result A := fst (fst x).
Definition final {W A} (x : result A * W * list event) : W := snd (fst x).
Definition trace {W A} (x : result A * W * list event) : list event := snd x.

(** The [img.resize] calls of a trace: the image and the size asked for. *)
Definition resize_calls (t : list event) : list (Image.t * (Z * Z) * Resampling) :=
  flat_map (fun ev =>
    match ev with
    | EvCall c _ =>
        match c with
        | Image_resize im sz rs => [(im, sz, rs)]
        | _ => []
        end
    | _ => []
    end) t.

(** The [img.thumbnail] calls of a trace. *)
Definition thumbnail_calls (t : list event) : list (Image.t * (Z * Z) * Resampling) :=
  flat_map (fun ev =>
    match ev with
    | EvCall c _ =>
        match c with
        | Image_thumbnail im sz rs => [(im, sz, rs)]
        | _ => []
        end
    | _ => []
    end) t.

(** The [img.save] calls of a trace. *)
Record save_call : Type := {
  saved_image : Image.t;
  saved_path : string;
  saved_format : string;
  saved_quality : Z;
  saved_optimize : bool
}.

Definition save_calls (t : list event) : list save_call :=
  flat_map (fun ev =>
    match ev with
    | EvCall c _ =>
        match c with
        | Image_save im fp fmt q o =>
            [{| saved_image := im; saved_path := fp; saved_format := fmt;
                saved_quality := q; saved_optimize := o |}]
        | _ => []
        end
    | _ => []
    end) t.


(** The calls to Pillow and the file system of a trace, by name. *)
Definition call_name {R} (c : call R) : string :=
  match c with
  | Image_open _ => "Image.open"
  | Image_convert _ _ => "convert"
  | Image_resize _ _ _ => "resize"
  | Image_thumbnail _ _ _ => "thumbnail"
  | Image_save _ _ _ _ _ => "save"
  | Image_close _ => "close"
  | Path_mkdir _ _ _ => "mkdir"
  | os_listdir _ => "listdir"
  | os_path_getsize _ => "getsize"
  end.

Definition call_names (t : list event) : list string :=
  flat_map (fun ev =>
    match ev with
    | EvCall c _ => [call_name c]
    | _ => []
    end) t.

(** The lines printed, in order (not those whose [print] raised). *)
Definition printed (t : list event) : list string :=
  flat_map (fun ev =>
    match ev with
    | EvPrint l => [l]
    | _ => []
    end) t.


(** The [img.convert] calls of a trace: the image and the mode asked for. *)
Definition convert_calls (t : list event) : list (Image.t * string) :=
  flat_map (fun ev =>
    match ev with
    | EvCall c _ =>
        match c with
        | Image_convert im m => [(im, m)]
        | _ => []
        end
    | _ => []
    end) t.

(** ** Pillow's colour modes *)

(** The modes with an alpha band, as Pillow lists them
    ([Image.has_transparency_data]), and the palette modes. *)
Definition alpha_modes : list string := ["LA"; "La"; "PA"; "RGBA"; "RGBa"].
Definition palette_modes : list string := ["P"; "PA"].

Definition has_alpha_or_palette (mode : string) : bool :=
  str_in mode alpha_modes || str_in mode palette_modes.

(** A Pillow that delivers the mode [convert] is asked for and keeps the mode
    through [resize] and [thumbnail]. *)
Definition keeps_modes {W} (h : world W) : Prop :=
  (forall im m w im' w',
      h _ (Image_convert im m) w = (Ok im', w') -> Image.mode im' = m) /\
  (forall im sz rs w im' w',
      h _ (Image_resize im sz rs) w = (Ok im', w') -> Image.mode im' = Image.mode im) /\
  (forall im sz rs w im' w',
      h _ (Image_thumbnail im sz rs) w = (Ok im', w') -> Image.mode im' = Image.mode im).

(** ** A small world for the examples *)

(** A file system of decodable images and other files, a Pillow that converts,
    resizes and encodes the way the real one does in the respects the examples
    need: [resize] refuses a size below 1x1, and the JPEG encoder refuses the
    modes it cannot write. *)
Module Sandbox.

Record state : Type := {
  files : list (string * option Image.t);      (* path -> image, or not an image *)
  listing : list (string * list string)        (* directory -> entry names *)
}.

Fixpoint lookup {A} (k : string) (m : list (string * A)) : option A :=
  match m with
  | [] => None
  | (k', v) :: m' => if String.eqb k k' then Some v else lookup k m'
  end.

Definition with_mode (im : Image.t) (m : string) : Image.t :=
  {| Image.mode := m; Image.size := Image.size im;
     Image.format := None; Image.pixels := Image.pixels im |}.

Definition with_size (im : Image.t) (sz : Z * Z) : Image.t :=
  {| Image.mode := Image.mode im; Image.size := sz;
     Image.format := None; Image.pixels := Image.pixels im |}.

Definition with_format (im : Image.t) (f : string) : Image.t :=
  {| Image.mode := Image.mode im; Image.size := Image.size im;
     Image.format := Some f; Image.pixels := Image.pixels im |}.

(** The size of a thumbnail: the image's own when it fits the box, otherwise
    the largest of the same proportions that fits, at least 1x1. *)
Definition fit (sz box : Z * Z) : Z * Z :=
  let '(x, y) := sz in
  let '(bw, bh) := box in
  if (x <=? bw) && (y <=? bh) then sz
  else if y * bw <=? x * bh then (bw, Z.max 1 (y * bw / x))
  else (Z.max 1 (x * bh / y), bh).

Definition jpeg_modes : list string := ["1"; "L"; "RGB"; "RGBX"; "CMYK"; "YCbCr"].

Definition pillow : world state :=
  fun R (c : call R) =>
    match c in call R return state -> result R * state with
    | Image_open fp => fun s =>
        match lookup fp (files s) with
        | Some (Some im) => (Ok im, s)
        | Some None =>
            (Err (LibraryError "UnidentifiedImageError"
                    ("cannot identify image file " ++ fp)), s)
        | None =>
            (Err (LibraryError "FileNotFoundError"
                    ("No such file or directory: " ++ fp)), s)
        end
    | Image_convert im m => fun s => (Ok (with_mode im m), s)
    | Image_resize im sz _ => fun s =>
        if (fst sz <? 1) || (snd sz <? 1)
        then (Err (LibraryError "ValueError" "height and width must be > 0"), s)
        else (Ok (with_size im sz), s)
    | Image_thumbnail im box _ => fun s =>
        (Ok (with_size im (fit (Image.size im) box)), s)
    | Image_save im fp fmt _ _ => fun s =>
        if str_in (Image.mode im) jpeg_modes
        then (Ok tt, {| files := (fp, Some (with_format im fmt)) :: files s;
                        listing := listing s |})
        else (Err (LibraryError "OSError"
                     ("cannot write mode " ++ Image.mode im ++ " as JPEG")), s)
    | Image_close _ => fun s => (Ok tt, s)
    | Path_mkdir _ _ _ => fun s => (Ok tt, s)
    | os_listdir p => fun s =>
        match lookup (PurePath.str p) (listing s) with
        | Some names => (Ok names, s)
        | None =>
            (Err (LibraryError "FileNotFoundError"
                    ("No such file or directory: " ++ PurePath.str p)), s)
        end
    | os_path_getsize fp => fun s =>
        match lookup fp (files s) with
        | Some (Some im) => (Ok (Z.of_nat (List.length (Image.pixels im))), s)
        | Some None => (Ok 0, s)
        | None =>
            (Err (LibraryError "FileNotFoundError"
                    ("No such file or directory: " ++ fp)), s)
        end
    end.

Definition picture (mode : string) (width height : Z) : Image.t :=
  {| Image.mode := mode; Image.size := (width, height);
     Image.format := Some "PNG"; Image.pixels := [] |}.

(** A directory [comics] with two pages, a file that is no image, a text file
    and a palette image with alpha. *)
Definition comics : state :=
  {| files := [("comics/page1.png", Some (picture "RGBA" 2400 3600));
               ("comics/page2.JPG", Some (picture "RGB" 800 600));
               ("comics/broken.png", None);
               ("comics/notes.txt", None);
               ("comics/strip.bmp", Some (picture "RGB" 1 10000));
               ("scan.tif", Some (picture "PA" 640 480))];
     listing := [("comics", ["page1.png"; "broken.png"; "notes.txt";
                             "page2.JPG"; "strip.bmp"])] |}.

End Sandbox.

(** A world with one file, decoded as an image without width. *)
Definition blank_world : Sandbox.state :=
  {| Sandbox.files := [("blank.png", Some (Sandbox.picture "RGB" 0 10))];
     Sandbox.listing := [] |}.


(** Two standard outputs for the examples: one that takes every line, and a
    pipe whose reader is gone, on which every [print] raises. *)
Definition every_line {W} : stdout W := fun _ w => (Ok tt, w).

Definition broken_pipe {W} : stdout W :=
  fun _ w => (Err (LibraryError "BrokenPipeError" "[Errno 32] Broken pipe"), w).

(** ** The command line *)

(** The [img.close] calls of a trace (the end of a [with] block). *)
Definition close_calls (t : list event) : list Image.t :=
  flat_map (fun ev =>
    match ev with
    | EvCall c _ =>
        match c with
        | Image_close im => [im]
        | _ => []
        end
    | _ => []
    end) t.

(** The calls of a trace that raised, by name. *)
Definition failed_calls (t : list event) : list string :=
  flat_map (fun ev =>
    match ev with
    | EvCall c (Err _) => [call_name c]
    | _ => []
    end) t.

(** [str(n)] for an [int]. *)
Definition str_of_int (n : Z) : string :=
  DecimalString.NilZero.string_of_int (Z.to_int n).

(** [f"{x:.2f}"]: the float rounded to two decimals, ties to even on its exact
    value, with the sign of [x]. *)
Definition format_2f (x : Float64.float) : string :=
  let cents := Float64.rne (100 * Z.abs x) Float64.one in
  (if x <? 0 then "-" else "")
  ++ str_of_int (cents / 100) ++ "."
  ++ str_of_int (cents mod 100 / 10) ++ str_of_int (cents mod 10).

(** The newline character. *)
Definition nl : string := String "010"%char "".

Definition usage : list string :=
  ["Usage: python image_processor.py <input_image> [output_image] [--width WIDTH] [--quality QUALITY]";
   nl ++ "Example:";
   "  python image_processor.py input.jpg output.jpg --width 1200 --quality 85";
   "  python image_processor.py input_directory --batch"].

(** How a run of [main] ends for the shell: the status of [sys.exit], 0 at
    the end of [main], 1 on an exception that nobody caught. *)
Definition exit_status (r : result Z) : Z :=
  match r with Ok n => n | Err _ => 1 end.

Section CommandLine.

(** The module-level flag set by the import of Pillow. *)
Variable PIL_AVAILABLE : bool.

(** Python's [int(s)] on a string, which raises [ValueError] on what is no
    number. *)
Variable int : string -> result Z.

(** [os.path.isdir] and [os.path.isfile] on the file system as [main] finds
    it: [main] asks them before it calls anything that could change it. *)
Variables isdir isfile : string -> bool.

(** The loop of [main] over [enumerate(sys.argv)], from the arguments still to
    visit: [--width] and [--quality] take the argument after them, when there
    is one, and that argument is visited in its turn. *)
Fixpoint scan_options (args : list string) (width quality : Z) : result (Z * Z) :=
  match args with
  | [] => Ok (width, quality)
  | arg :: rest =>
      match rest with
      | next :: _ =>
          if String.eqb arg "--width" then
            rbind (int next) (fun width => scan_options rest width quality)
          else if String.eqb arg "--quality" then
            rbind (int next) (fun quality => scan_options rest width quality)
          else scan_options rest width quality
      | [] => scan_options rest width quality
      end
  end.

(** [main()], with [sys.argv] as its argument.  [sys.exit(1)] raises
    [SystemExit], which is no [Exception] and passes the [except] clause;
    every [sys.exit] of [main] is the last thing done on its path, so it is
    the status the program returns, and the end of [main] is status 0.  A
    [print] inside the [try] that raises is handled like any exception there;
    the [print] of the handler and those of the usage are outside it. *)
Definition main (argv : list string) : prog Z :=
  if (Z.of_nat (List.length argv) <? 2) then
    print (nth 0 usage "") ;;; print (nth 1 usage "") ;;; print (nth 2 usage "") ;;;
    print (nth 3 usage "") ;;; Ret 1
  else
    let input_path := nth 1 argv "" in
    let output_path :=
      if (2 <? Z.of_nat (List.length argv))
         && negb (PyStr.startswith "--" (nth 2 argv ""))
      then Some (nth 2 argv "") else None in
    let batch_mode := str_in "--batch" argv in
    options <- lift (scan_options argv 1200 85) ;;
    let '(width, quality) := options in
    let processor := __init__ (Some width) None (Some quality) in
    try_except
      (if batch_mode then
         if isdir input_path then
           optimized <- batch_optimize PIL_AVAILABLE processor input_path output_path ;;
           print (nl ++ "Successfully optimized "
                  ++ str_of_int (Z.of_nat (List.length optimized)) ++ " images") ;;;
           Ret 0
         else
           print "Error: Batch mode requires a directory path" ;;; Ret 1
       else
         if isfile input_path then
           result <- optimize_image PIL_AVAILABLE processor input_path output_path ;;
           print ("Image optimized successfully: " ++ result) ;;;
           info <- get_image_info PIL_AVAILABLE processor result ;;
           print (nl ++ "Image Info:") ;;;
           print ("  Dimensions: " ++ str_of_int (ImageInfo.width info) ++ "x"
                  ++ str_of_int (ImageInfo.height info)) ;;;
           print ("  Format: " ++ match ImageInfo.format info with
                                  | Some f => f
                                  | None => "None"
                                  end) ;;;
           kb <- lift (Float64.int_truediv (ImageInfo.file_size info) 1024) ;;
           print ("  File Size: " ++ format_2f kb ++ " KB") ;;;
           Ret 0
         else
           print ("Error: Input file not found: " ++ input_path) ;;; Ret 1)
      (fun e => print ("Error: " ++ exn_str e) ;;; Ret 1).

End CommandLine.

(** The module as a script: the import of Pillow, with its warning when it
    fails, then [main()]. *)
Definition script (pillow_installed : bool) (int : string -> result Z)
    (isdir isfile : string -> bool) (argv : list string) : prog Z :=
  (if pillow_installed then Ret tt
   else print "Warning: Pillow library not installed. Install with: pip install Pillow") ;;;
  main pillow_installed int isdir isfile argv.

(** What [main] takes from the command line: the input path, the output path
    (the second argument unless it starts like an option) and the processor
    built from the options. *)
Definition cli_input (argv : list string) : string := nth 1 argv "".

Definition cli_output (argv : list string) : option string :=
  if (2 <? Z.of_nat (List.length argv)) && negb (PyStr.startswith "--" (nth 2 argv ""))
  then Some (nth 2 argv "") else None.

Definition cli_processor (options : Z * Z) : ComicImageProcessor :=
  __init__ (Some (fst options)) None (Some (snd options)).

(** The lines of a successful single run and the last line of a batch. *)
Definition info_lines (info : ImageInfo.t) (kb : Float64.float) : list string :=
  [nl ++ "Image Info:";
   "  Dimensions: " ++ str_of_int (ImageInfo.width info) ++ "x"
     ++ str_of_int (ImageInfo.height info);
   "  Format: " ++ match ImageInfo.format info with Some f => f | None => "None" end;
   "  File Size: " ++ format_2f kb ++ " KB"].

Definition summary_line (optimized : list string) : string :=
  nl ++ "Successfully optimized "
  ++ str_of_int (Z.of_nat (List.length optimized)) ++ " images".

(** An [int] for the examples: plain decimal digits. *)
Fixpoint digits_value (s : string) (acc : Z) : option Z :=
  match s with
  | EmptyString => Some acc
  | String c s' =>
      let n := Z.of_nat (nat_of_ascii c) in
      if (48 <=? n) && (n <=? 57) then digits_value s' (10 * acc + (n - 48))
      else None
  end.

Definition decimal_int (s : string) : result Z :=
  match s with
  | EmptyString =>
      Err (LibraryError "ValueError" "invalid literal for int() with base 10: ''")
  | _ =>
      match digits_value s 0 with
      | Some n => Ok n
      | None =>
          Err (LibraryError "ValueError"
                 ("invalid literal for int() with base 10: '" ++ s ++ "'"))
      end
  end.

(** * Facts about the rounding of [Float64] *)

Module Float64Facts.
Import Float64.

Lemma rne_spec (n d : Z) :
  0 <= n -> 0 < d ->
  (n / d) * d <= n < (n / d + 1) * d /\
  ((rne n d = n / d /\ 2 * (n - (n / d) * d) <= d) \/
   (rne n d = n / d + 1 /\ d <= 2 * (n - (n / d) * d))).
Proof.
  intros Hn Hd. unfold rne.
  pose proof (Z.div_mod n d ltac:(lia)) as E.
  pose proof (Z.mod_pos_bound n d Hd) as B.
  split; [nia|].
  replace (n - n / d * d) with (n mod d) by lia.
  destruct (2 * (n mod d) <? d) eqn:H1;
    [apply Z.ltb_lt in H1; left; lia | apply Z.ltb_ge in H1].
  destruct (d <? 2 * (n mod d)) eqn:H2;
    [apply Z.ltb_lt in H2; right; lia | apply Z.ltb_ge in H2].
  destruct (Z.even (n / d)); [left | right]; lia.
Qed.

(** Between the two multiples of [2 ^ s] that enclose [n / d] there is no
    representable number. *)
Lemma no_representable_between (n d F : Z) :
  0 <= n -> 0 < d -> representable F ->
  let s := Z.max 0 (Z.log2 (n / d) - 52) in
  let m0 := n / (d * 2 ^ s) in
  F <= m0 * 2 ^ s \/ (m0 + 1) * 2 ^ s <= F.
Proof.
  intros Hn Hd (m & k & Hk & Hm & ->) s m0.
  assert (Hs : 0 <= s) by (unfold s; lia).
  assert (Hp : 0 < 2 ^ s) by (apply Z.pow_pos_nonneg; lia).
  assert (Hm0 : 0 <= m0) by (apply Z.div_pos; nia).
  destruct (Z_le_gt_dec s k) as [Hsk | Hsk].
  - (* a multiple of 2^s *)
    replace k with ((k - s) + s) by lia.
    rewrite Z.pow_add_r by lia.
    set (j := m * 2 ^ (k - s)).
    replace (m * (2 ^ (k - s) * 2 ^ s)) with (j * 2 ^ s) by (unfold j; ring).
    destruct (Z_le_gt_dec j m0); [left | right]; nia.
  - (* finer than 2^s: then below 2^52 * 2^s <= m0 * 2^s *)
    left.
    assert (Hs' : s = Z.log2 (n / d) - 52) by (unfold s in *; lia).
    assert (Hq : 0 < n / d).
    { destruct (Z_lt_le_dec 0 (n / d)) as [|Hq0]; [assumption|].
      assert (n / d = 0) by (pose proof (Z.div_pos n d Hn Hd); lia).
      rewrite H in Hs'. simpl in Hs'. lia. }
    pose proof (Z.log2_spec (n / d) Hq) as [Hlo _].
    replace (Z.log2 (n / d)) with (52 + s) in Hlo by lia.
    rewrite Z.pow_add_r in Hlo by lia.
    assert (Hm0' : 2 ^ 52 <= m0).
    { unfold m0. rewrite <- Z.div_div by lia.
      apply Z.div_le_lower_bound; [lia | nia]. }
    assert (H2k : 2 * 2 ^ k <= 2 ^ s).
    { replace (2 * 2 ^ k) with (2 ^ (k + 1)) by (rewrite Z.pow_add_r by lia; lia).
      apply Z.pow_le_mono_r; lia. }
    assert (0 < 2 ^ k) by (apply Z.pow_pos_nonneg; lia).
    assert (m <= 2 ^ 53) by lia.
    change (2 ^ 53) with (2 ^ 52 * 2) in H0.
    assert (m * 2 ^ k <= 2 ^ 52 * 2 ^ s) by nia.
    nia.
Qed.

(** [round_pos] returns a nearest representable number. *)
Lemma round_pos_nearest (n d F : Z) :
  0 <= n -> 0 < d -> representable F ->
  Z.abs (round_pos n d * d - n) <= Z.abs (F * d - n).
Proof.
  intros Hn Hd HF.
  pose proof (no_representable_between n d F Hn Hd HF) as Hbetween.
  unfold round_pos. cbv zeta in Hbetween.
  set (s := Z.max 0 (Z.log2 (n / d) - 52)) in *.
  assert (Hp : 0 < 2 ^ s) by (apply Z.pow_pos_nonneg; unfold s; lia).
  assert (HD : 0 < d * 2 ^ s) by nia.
  pose proof (rne_spec n (d * 2 ^ s) Hn HD) as [Hb Hr].
  set (m0 := n / (d * 2 ^ s)) in *.
  set (P := 2 ^ s) in *.
  destruct Hr as [[-> Hr] | [-> Hr]]; destruct Hbetween; nia.
Qed.

Lemma round_nearest (n d F : Z) :
  0 <= n -> 0 < d -> representable F ->
  Z.abs (round n d * d - n) <= Z.abs (F * d - n).
Proof.
  intros Hn Hd HF. unfold round.
  destruct (n <? 0) eqn:E; [apply Z.ltb_lt in E; lia|].
  now apply round_pos_nearest.
Qed.

(** Rounding does not cross a representable number. *)
Lemma round_le (n d F : Z) :
  0 <= n -> 0 < d -> representable F -> n <= F * d -> round n d <= F.
Proof.
  intros Hn Hd HF H. pose proof (round_nearest n d F Hn Hd HF). nia.
Qed.

Lemma round_ge (n d F : Z) :
  0 <= n -> 0 < d -> representable F -> F * d <= n -> F <= round n d.
Proof.
  intros Hn Hd HF H. pose proof (round_nearest n d F Hn Hd HF). nia.
Qed.

Lemma round_exact (d F : Z) :
  0 < d -> 0 <= F -> representable F -> round (F * d) d = F.
Proof.
  intros Hd H0 HF.
  pose proof (round_le (F * d) d F ltac:(nia) Hd HF ltac:(lia)).
  pose proof (round_ge (F * d) d F ltac:(nia) Hd HF ltac:(lia)).
  lia.
Qed.

Lemma representable_0 : representable 0.
Proof. exists 0, 0. lia. Qed.

Lemma representable_scaled (m k : Z) :
  0 <= k -> Z.abs m <= 2 ^ 53 -> representable (m * 2 ^ k).
Proof. intros. exists m, k. auto. Qed.

(** The integers up to 2^53, as floats. *)
Lemma representable_int (z : Z) :
  Z.abs z <= 2 ^ 53 -> representable (z * one).
Proof. intros. apply representable_scaled; lia. Qed.

Lemma round_nonneg (n d : Z) : 0 <= n -> 0 < d -> 0 <= round n d.
Proof.
  intros. apply (round_ge n d 0); auto using representable_0.
Qed.

Lemma one_steps : one = 2 ^ 53 * step.
Proof. reflexivity. Qed.

Lemma step_pos : 0 < step.
Proof. reflexivity. Qed.

Lemma representable_steps (j : Z) :
  Z.abs j <= 2 ^ 53 -> representable (j * step).
Proof. intros. apply representable_scaled; lia. Qed.

Lemma DBL_MAX_representable : representable (DBL_MAX * one).
Proof.
  exists (2 ^ 53 - 1), (971 + 1074). repeat split; try lia.
Qed.

Lemma DBL_MAX_finite : DBL_MAX * one < out_of_range.
Proof. reflexivity. Qed.

Lemma finite_ok (msg : string) (x : Z) :
  0 <= x -> x <= DBL_MAX * one -> finite msg x = Ok x.
Proof.
  intros H0 H. unfold finite.
  pose proof DBL_MAX_finite.
  destruct (Z.abs x <? out_of_range) eqn:E; [reflexivity|].
  apply Z.ltb_ge in E. lia.
Qed.

(** *** The two ratios *)

Lemma finite_inv (msg : string) (x r : Z) : finite msg x = Ok r -> r = x.
Proof.
  unfold finite. destruct (Z.abs x <? out_of_range); congruence.
Qed.

(** [W / w] for a positive [w]: the rounded quotient, when it is in range. *)
Lemma int_truediv_pos (W w : Z) :
  1 <= w ->
  int_truediv W w =
  finite "integer division result too large for a float" (round (W * one) w).
Proof.
  intros Hw. unfold int_truediv.
  replace (w =? 0) with false by (symmetry; apply Z.eqb_neq; lia).
  replace (Z.sgn w) with 1 by lia. replace (Z.abs w) with w by lia.
  now rewrite Z.mul_1_l.
Qed.

(** A bound at least as large as the dimension gives a quotient of at least
    1.0. *)
Lemma quotient_ge_one (W w : Z) :
  1 <= w -> w <= W -> one <= round (W * one) w.
Proof.
  intros Hw HW.
  assert (H1 : 0 < one) by reflexivity.
  apply round_ge; [nia | lia | | nia].
  replace one with (1 * one) by lia. apply representable_int. lia.
Qed.

(** A bound within the range of floats gives a quotient within it. *)
Lemma quotient_finite (W w : Z) :
  0 <= W -> W <= DBL_MAX -> 1 <= w ->
  0 <= round (W * one) w <= DBL_MAX * one.
Proof.
  intros HW Hmax Hw.
  assert (H1 : 0 < one) by reflexivity.
  split; [apply round_nonneg; nia|].
  apply round_le; [nia | lia | apply DBL_MAX_representable |].
  assert (W * one <= DBL_MAX * one) by nia.
  assert (0 <= DBL_MAX * one) by nia. nia.
Qed.

(** A bound below the dimension gives a quotient below 1.0 that is within
    2^-54 of the exact one. *)
Lemma quotient_lt_one (W w : Z) :
  1 <= W -> W < w -> w < 2 ^ 53 ->
  0 < round (W * one) w < one /\
  2 * (round (W * one) w * w - W * one) < one.
Proof.
  intros HW Hw Hmax.
  pose proof one_steps as E1. pose proof step_pos as Hs.
  set (r := round (W * one) w).
  set (p53 := 2 ^ 53) in *.
  assert (Hp : 0 < p53) by reflexivity.
  assert (Hn : 0 <= W * one) by nia.
  assert (Hlo : 1 * step <= r).
  { apply round_ge; [lia | lia | | rewrite E1; nia].
    apply representable_steps. fold p53. lia. }
  assert (Hhi : r <= (p53 - 1) * step).
  { apply round_le; [lia | lia | | rewrite E1; nia].
    apply representable_steps. fold p53. lia. }
  (* the two multiples of [step] around the quotient *)
  set (j := (W * p53) / w).
  assert (Hj : j * w <= W * p53 < (j + 1) * w).
  { unfold j. pose proof (Z.div_mod (W * p53) w ltac:(lia)).
    pose proof (Z.mod_pos_bound (W * p53) w ltac:(lia)). nia. }
  assert (Hj0 : 0 <= j) by (apply Z.div_pos; nia).
  assert (Hj1 : j + 1 <= p53) by nia.
  pose proof (round_nearest (W * one) w (j * step) Hn ltac:(lia)
                ltac:(apply representable_steps; fold p53; lia)) as N1.
  pose proof (round_nearest (W * one) w ((j + 1) * step) Hn ltac:(lia)
                ltac:(apply representable_steps; fold p53; lia)) as N2.
  fold r in N1, N2.
  split.
  - rewrite E1. nia.
  - rewrite E1 in *.
    assert (A1 : Z.abs (j * step * w - W * (p53 * step)) = (W * p53 - j * w) * step) by nia.
    assert (A2 : Z.abs ((j + 1) * step * w - W * (p53 * step)) = ((j + 1) * w - W * p53) * step) by nia.
    rewrite A1 in N1. rewrite A2 in N2.
    assert (2 * (r * w - W * (p53 * step)) <= w * step) by nia.
    nia.
Qed.

(** In the range of floats, the division succeeds. *)
Lemma int_truediv_finite (W w : Z) :
  0 <= W -> W <= DBL_MAX -> 1 <= w ->
  int_truediv W w = Ok (round (W * one) w).
Proof.
  intros HW Hmax Hw. rewrite int_truediv_pos by assumption.
  pose proof (quotient_finite W w HW Hmax Hw). apply finite_ok; lia.
Qed.

(** When the division succeeds, its result is the rounded quotient. *)
Lemma int_truediv_inv (W w r : Z) :
  1 <= w -> int_truediv W w = Ok r -> r = round (W * one) w.
Proof.
  intros Hw. rewrite int_truediv_pos by assumption. apply finite_inv.
Qed.

(** *** Scaling a dimension *)

(** [int(a * r)] for a dimension [a] and a ratio [r] below 1.0: the exact
    product [a * r] truncated, or one more when the product rounds up to the
    next integer; never above an integer [B] that the product exceeds by less
    than one half. *)
Lemma int_mul_float_spec (a r : Z) :
  1 <= a -> a < 2 ^ 53 -> 0 <= r -> r < one ->
  exists x, int_mul_float a r = Ok x /\
    0 <= int_of_float x <= a /\
    (a * r) / one <= int_of_float x /\
    int_of_float x * one < a * r + one /\
    (forall B, 0 <= B < 2 ^ 53 -> 2 * (a * r - B * one) < one ->
               int_of_float x <= B).
Proof.
  intros Ha Ha' Hr Hr'.
  assert (H1 : 0 < one) by reflexivity.
  assert (Hmax : 2 ^ 53 < DBL_MAX) by reflexivity.
  unfold int_mul_float, of_int.
  assert (Ea : round (a * one) 1 = a * one).
  { pose proof (round_exact 1 (a * one) ltac:(lia) ltac:(nia)
                  ltac:(apply representable_int; lia)) as E.
    rewrite Z.mul_1_r in E. exact E. }
  rewrite Ea. rewrite finite_ok by nia. cbn [rbind]. unfold float_mul.
  set (x := round (a * one * r) one).
  assert (Hn : 0 <= a * one * r) by nia.
  assert (Hx0 : 0 <= x) by (apply round_nonneg; lia).
  assert (Hxa : x <= a * one).
  { apply round_le; [lia | lia | apply representable_int; lia | nia]. }
  exists x. split; [apply finite_ok; nia|].
  unfold int_of_float. rewrite Z.quot_div_nonneg by lia.
  pose proof (Z.div_mod x one ltac:(lia)) as Dx.
  pose proof (Z.mod_pos_bound x one H1) as Bx.
  set (n := x / one) in *.
  assert (Hn0 : 0 <= n) by nia.
  assert (Hna : n <= a) by nia.
  split; [lia|]. split; [|split].
  - pose proof (Z.div_mod (a * r) one ltac:(lia)) as Dq.
    pose proof (Z.mod_pos_bound (a * r) one H1) as Bq.
    set (q := a * r / one) in *.
    assert (0 <= q) by nia. assert (q <= a) by nia.
    assert (q * one <= x).
    { apply round_ge; [lia | lia | apply representable_int; lia | nia]. }
    nia.
  - destruct (Z_lt_le_dec (n * one) (a * r + one)) as [|C]; [assumption|].
    exfalso.
    assert (1 <= n) by nia.
    assert (x <= (n - 1) * one).
    { apply round_le; [lia | lia | apply representable_int; lia | nia]. }
    nia.
  - intros B HB Hc.
    destruct (Z_le_gt_dec (a * r) (B * one)) as [C|C].
    + assert (x <= B * one).
      { apply round_le; [lia | lia | apply representable_int; lia | nia]. }
      nia.
    + pose proof (round_nearest (a * one * r) one (B * one) Hn H1
                    ltac:(apply representable_int; lia)) as N.
      fold x in N.
      replace (x * one - a * one * r) with ((x - a * r) * one) in N by ring.
      replace (B * one * one - a * one * r) with ((B * one - a * r) * one) in N by ring.
      rewrite !Z.abs_mul in N. rewrite (Z.abs_eq one) in N by lia.
      assert (Z.abs (x - a * r) <= Z.abs (B * one - a * r)) by nia.
      nia.
Qed.

(** *** Agreement with the Standard Library's IEEE 754 operations *)

(** On operands of the kind the processor meets, and on some where the
    rounding is delicate, the division and the product above are those of
    [SpecFloat] at precision 53 and maximal exponent 1024. *)
Lemma division_agrees_with_SpecFloat :
  forallb (fun ab =>
      match int_truediv (fst ab) (snd ab),
            units_of_ieee (SpecFloat.SFdiv 53 1024 (ieee_of_int (fst ab))
                             (ieee_of_int (snd ab))) with
      | Ok x, Some y => x =? y
      | _, _ => false
      end)
    [(1200, 2400); (1800, 10000); (1, 3); (2, 3); (1200, 1201); (1800, 1801);
     (1, 9007199254740991); (9007199254740991, 9007199254740990); (1200, 7);
     (4503599627370497, 3)] = true.
Proof. vm_compute. reflexivity. Qed.

Lemma product_agrees_with_SpecFloat :
  forallb (fun abc =>
      let '(a, b, c) := abc in
      match rbind (int_truediv b c) (int_mul_float a),
            units_of_ieee
              (SpecFloat.SFmul 53 1024 (ieee_of_int a)
                 (SpecFloat.SFdiv 53 1024 (ieee_of_int b) (ieee_of_int c))) with
      | Ok x, Some y => x =? y
      | _, _ => false
      end)
    [(10000, 1800, 10000); (1, 1800, 10000); (3, 1, 3); (1201, 1200, 1201);
     (4503599627370497, 1800, 4503599627370497); (49, 1, 49)] = true.
Proof. vm_compute. reflexivity. Qed.

End Float64Facts.

(** * Facts about the resize arithmetic *)

Module ResizeFacts.
Import Float64 Float64Facts.

Lemma min3_spec (a b c : float) :
  min3 a b c <= a /\ min3 a b c <= b /\ min3 a b c <= c /\
  (min3 a b c = a \/ min3 a b c = b \/ min3 a b c = c).
Proof.
  unfold min3, ltb.
  destruct (b <? a) eqn:E1; [apply Z.ltb_lt in E1 | apply Z.ltb_ge in E1].
  - destruct (c <? b) eqn:E2; [apply Z.ltb_lt in E2 | apply Z.ltb_ge in E2]; lia.
  - destruct (c <? a) eqn:E2; [apply Z.ltb_lt in E2 | apply Z.ltb_ge in E2]; lia.
Qed.

(** When the ratio is computed, it is the smallest of the two rounded
    quotients and 1.0. *)
Lemma resize_ratio_inv (self : ComicImageProcessor) (w h : Z) (r : float) :
  1 <= w -> 1 <= h ->
  resize_ratio self (w, h) = Ok r ->
  r = min3 (round (max_width self * one) w) (round (max_height self * one) h) one.
Proof.
  intros Hw Hh. unfold resize_ratio.
  destruct (int_truediv (max_width self) w) as [rw|] eqn:Ew; [|discriminate].
  destruct (int_truediv (max_height self) h) as [rh|] eqn:Eh; [|discriminate].
  cbn [rbind]. intros [= <-].
  apply int_truediv_inv in Ew; [|assumption].
  apply int_truediv_inv in Eh; [|assumption].
  now subst.
Qed.

(** In the range of floats the ratio is computed. *)
Lemma resize_ratio_finite (self : ComicImageProcessor) (w h : Z) :
  1 <= w -> 1 <= h ->
  0 <= max_width self <= DBL_MAX -> 0 <= max_height self <= DBL_MAX ->
  resize_ratio self (w, h) =
  Ok (min3 (round (max_width self * one) w) (round (max_height self * one) h) one).
Proof.
  intros Hw Hh HW HH. unfold resize_ratio.
  rewrite !int_truediv_finite by lia. reflexivity.
Qed.

(** Within the bounds, the ratio is 1.0 whenever it is computed. *)
Lemma resize_ratio_within (self : ComicImageProcessor) (w h : Z) (r : float) :
  1 <= w <= max_width self -> 1 <= h <= max_height self ->
  resize_ratio self (w, h) = Ok r -> r = one.
Proof.
  intros Hw Hh E. apply resize_ratio_inv in E; try lia. subst r.
  pose proof (quotient_ge_one (max_width self) w ltac:(lia) ltac:(lia)).
  pose proof (quotient_ge_one (max_height self) h ltac:(lia) ltac:(lia)).
  pose proof (min3_spec (round (max_width self * one) w)
                (round (max_height self * one) h) one).
  lia.
Qed.

(** Within the bounds no resize is planned. *)
Lemma resize_plan_within (self : ComicImageProcessor) (w h : Z) :
  1 <= w <= max_width self -> 1 <= h <= max_height self ->
  resize_plan self (w, h) = Ok None \/
  exists e, resize_plan self (w, h) = Err e.
Proof.
  intros Hw Hh. unfold resize_plan.
  destruct (resize_ratio self (w, h)) as [r|e] eqn:E; cbn [rbind].
  - apply resize_ratio_within in E; try assumption. subst r.
    unfold ltb. rewrite Z.ltb_irrefl. now left.
  - right. now exists e.
Qed.

(** A planned resize: the ratio is below 1.0 and both products are in range. *)
Lemma resize_plan_some_inv (self : ComicImageProcessor) (sz new_size : Z * Z) :
  resize_plan self sz = Ok (Some new_size) ->
  exists r x y,
    resize_ratio self sz = Ok r /\ r < one /\
    int_mul_float (fst sz) r = Ok x /\ int_mul_float (snd sz) r = Ok y /\
    new_size = (int_of_float x, int_of_float y).
Proof.
  unfold resize_plan.
  destruct (resize_ratio self sz) as [r|] eqn:E; [|discriminate]. cbn [rbind].
  unfold ltb. destruct (r <? one) eqn:Er; [|discriminate].
  apply Z.ltb_lt in Er.
  destruct (int_mul_float (fst sz) r) as [x|] eqn:Ex; [|discriminate].
  destruct (int_mul_float (snd sz) r) as [y|] eqn:Ey; [|discriminate].
  cbn [rbind]. intros [= <-]. now exists r, x, y.
Qed.

(** The ratio of an image inside the range of exact integers, under positive
    bounds: between 0 and the two quotients, below 1.0 exactly when a bound is
    exceeded. *)
Lemma resize_ratio_bounds (self : ComicImageProcessor) (w h : Z) (r : float) :
  1 <= max_width self -> 1 <= max_height self ->
  1 <= w < 2 ^ 53 -> 1 <= h < 2 ^ 53 ->
  resize_ratio self (w, h) = Ok r ->
  0 <= r <= one /\
  (r < one <-> (max_width self < w \/ max_height self < h)) /\
  (max_width self < w -> 2 * (r * w - max_width self * one) < one) /\
  (max_height self < h -> 2 * (r * h - max_height self * one) < one).
Proof.
  intros HW HH Hw Hh E. apply resize_ratio_inv in E; try lia.
  set (rw := round (max_width self * one) w) in *.
  set (rh := round (max_height self * one) h) in *.
  assert (H1 : 0 < one) by reflexivity.
  pose proof (min3_spec rw rh one) as (M1 & M2 & M3 & M4). rewrite <- E in *.
  assert (Hrw0 : 0 <= rw) by (apply round_nonneg; nia).
  assert (Hrh0 : 0 <= rh) by (apply round_nonneg; nia).
  assert (Aw : (w <= max_width self -> one <= rw) /\
               (max_width self < w ->
                rw < one /\ 2 * (rw * w - max_width self * one) < one)).
  { split; intros.
    - apply quotient_ge_one; lia.
    - pose proof (quotient_lt_one (max_width self) w ltac:(lia) ltac:(lia) ltac:(lia)).
      fold rw in H0. lia. }
  assert (Ah : (h <= max_height self -> one <= rh) /\
               (max_height self < h ->
                rh < one /\ 2 * (rh * h - max_height self * one) < one)).
  { split; intros.
    - apply quotient_ge_one; lia.
    - pose proof (quotient_lt_one (max_height self) h ltac:(lia) ltac:(lia) ltac:(lia)).
      fold rh in H0. lia. }
  destruct Aw as [Aw1 Aw2], Ah as [Ah1 Ah2].
  split; [lia|]. split; [split|split].
  - intros Hr.
    destruct (Z_lt_le_dec (max_width self) w); [now left|].
    destruct (Z_lt_le_dec (max_height self) h); [now right|].
    specialize (Aw1 ltac:(lia)). specialize (Ah1 ltac:(lia)). lia.
  - intros [Hc | Hc]; [specialize (Aw2 Hc) | specialize (Ah2 Hc)]; lia.
  - intros Hc. specialize (Aw2 Hc). nia.
  - intros Hc. specialize (Ah2 Hc). nia.
Qed.

(** A resize that follows a ratio below 1.0, for an image inside the range of
    exact integers and positive bounds: it is planned, both new dimensions
    are within the bounds and within one pixel of the exact products. *)
Lemma resize_plan_exceeding (self : ComicImageProcessor) (w h : Z) (r : float) :
  1 <= max_width self -> 1 <= max_height self ->
  1 <= w < 2 ^ 53 -> 1 <= h < 2 ^ 53 ->
  resize_ratio self (w, h) = Ok r -> r < one ->
  exists new_width new_height,
    resize_plan self (w, h) = Ok (Some (new_width, new_height)) /\
    0 <= new_width <= max_width self /\
    0 <= new_height <= max_height self /\
    new_width <= w /\ new_height <= h /\
    Z.abs (new_width * one - w * r) < one /\
    Z.abs (new_height * one - h * r) < one.
Proof.
  intros HW HH Hw Hh E Hr.
  pose proof (resize_ratio_bounds self w h r HW HH Hw Hh E) as (B0 & _ & Bw & Bh).
  assert (H1 : 0 < one) by reflexivity.
  destruct (int_mul_float_spec w r ltac:(lia) ltac:(lia) ltac:(lia) Hr)
    as (x & Ex & X1 & X2 & X3 & X4).
  destruct (int_mul_float_spec h r ltac:(lia) ltac:(lia) ltac:(lia) Hr)
    as (y & Ey & Y1 & Y2 & Y3 & Y4).
  exists (int_of_float x), (int_of_float y).
  assert (Fx : w * r < (int_of_float x + 1) * one).
  { pose proof (Z.div_mod (w * r) one ltac:(lia)).
    pose proof (Z.mod_pos_bound (w * r) one H1). nia. }
  assert (Fy : h * r < (int_of_float y + 1) * one).
  { pose proof (Z.div_mod (h * r) one ltac:(lia)).
    pose proof (Z.mod_pos_bound (h * r) one H1). nia. }
  split.
  { unfold resize_plan. rewrite E. cbn [rbind fst snd].
    unfold ltb. replace (r <? one) with true by (symmetry; apply Z.ltb_lt; lia).
    rewrite Ex, Ey. reflexivity. }
  assert (Gx : int_of_float x <= max_width self).
  { destruct (Z_lt_le_dec (max_width self) w) as [C|C]; [|lia].
    apply X4; [lia|]. specialize (Bw C). lia. }
  assert (Gy : int_of_float y <= max_height self).
  { destruct (Z_lt_le_dec (max_height self) h) as [C|C]; [|lia].
    apply Y4; [lia|]. specialize (Bh C). lia. }
  repeat split; try lia.
Qed.


End ResizeFacts.

(** * Facts about the methods *)

(** One step of a run: name the world's answer to the next call. *)
Ltac world_answers h :=
  match goal with
  | |- context [h ?R ?c ?w] =>
      let v := fresh "v" in let e := fresh "e" in let w' := fresh "w" in
      let E := fresh "E" in
      destruct (h R c w) as [[v | e] w'] eqn:E
  end.

Ltac run_simpl :=
  cbn [run bind call_ lift print try_except attempt try_block with_Image_open
       outcome final trace fst snd rbind negb].

(** One step of the method itself: a test or a computation that may raise. *)
Ltac method_step :=
  match goal with
  | |- context [lift ?r] =>
      lazymatch r with
      | Ok _ => fail
      | Err _ => fail
      | _ => let E := fresh "E" in destruct r eqn:E
      end
  | |- context [bind (match ?p with (_, _) => _ end) _] =>
      let E := fresh "E" in destruct p eqn:E
  | |- context [bind (if ?b then _ else _) _] =>
      let E := fresh "E" in destruct b eqn:E
  | |- context [match ?p with (_, _) => _ end] =>
      lazymatch p with
      | run _ _ _ => fail
      | _ => let E := fresh "E" in destruct p eqn:E
      end
  end.

Ltac run_all h :=
  repeat (run_simpl; try first [world_answers h | method_step]).

Ltac plan_known :=
  unfold resize_plan, resize_ratio;
  repeat match goal with
         | E : Image.size _ = _ |- _ => rewrite E
         | E : Float64.int_truediv _ _ = _ |- _ => rewrite E
         | E : Float64.ltb _ _ = _ |- _ => rewrite E
         | E : Float64.int_mul_float _ _ = _ |- _ => rewrite E
         | _ => progress cbn [rbind fst snd]
         end.

(** ** Running composed programs *)

Section RunFacts.
Context {W : Type} (h : world W).

Lemma run_bind {A B} (p : prog A) (f : A -> prog B) (w : W) :
  run h (bind p f) w =
  match run h p w with
  | (Ok a, w1, t1) => let '(r, w2, t2) := run h (f a) w1 in (r, w2, (t1 ++ t2)%list)
  | (Err e, w1, t1) => (Err e, w1, t1)
  end.
Proof.
  revert w. induction p as [a | e | l k IH | R c k IH]; intros w; cbn [bind run].
  - destruct (run h (f a) w) as [[r w2] t2]. reflexivity.
  - reflexivity.
  - rewrite IH. destruct (run h (k (Ok tt)) w) as [[[a | e] w1] t1].
    + destruct (run h (f a) w1) as [[r w2] t2]. reflexivity.
    + reflexivity.
  - destruct (h R c w) as [x w0]. rewrite IH.
    destruct (run h (k x) w0) as [[[a | e] w1] t1].
    + destruct (run h (f a) w1) as [[r w2] t2]. reflexivity.
    + reflexivity.
Qed.

Lemma run_try_except {A} (p : prog A) (hd : exn -> prog A) (w : W) :
  run h (try_except p hd) w =
  match run h p w with
  | (Ok a, w1, t1) => (Ok a, w1, t1)
  | (Err e, w1, t1) => let '(r, w2, t2) := run h (hd e) w1 in (r, w2, (t1 ++ t2)%list)
  end.
Proof.
  revert w. induction p as [a | e | l k IH | R c k IH]; intros w; cbn [try_except run].
  - reflexivity.
  - destruct (run h (hd e) w) as [[r w2] t2]. reflexivity.
  - rewrite IH. destruct (run h (k (Ok tt)) w) as [[[a | e] w1] t1].
    + reflexivity.
    + destruct (run h (hd e) w1) as [[r w2] t2]. reflexivity.
  - destruct (h R c w) as [x w0]. rewrite IH.
    destruct (run h (k x) w0) as [[[a | e] w1] t1].
    + reflexivity.
    + destruct (run h (hd e) w1) as [[r w2] t2]. reflexivity.
Qed.

(** The outcome of a program, reified, is never an exception. *)
Lemma run_attempt {A} (p : prog A) (w : W) :
  run h (attempt p) w =
  let '(r, w1, t1) := run h p w in (Ok r, w1, t1).
Proof.
  unfold attempt. rewrite run_try_except, run_bind.
  destruct (run h p w) as [[[a | e] w1] t1]; cbn [run]; now rewrite ?app_nil_r.
Qed.

(** *** On any standard output *)

Variable out : stdout W.

Lemma run_io_bind {A B} (p : prog A) (f : A -> prog B) (w : W) :
  run_io out h (bind p f) w =
  match run_io out h p w with
  | (Ok a, w1, t1) =>
      let '(r, w2, t2) := run_io out h (f a) w1 in (r, w2, (t1 ++ t2)%list)
  | (Err e, w1, t1) => (Err e, w1, t1)
  end.
Proof.
  revert w. induction p as [a | e | l k IH | R c k IH]; intros w; cbn [bind run_io].
  - destruct (run_io out h (f a) w) as [[r w2] t2]. reflexivity.
  - reflexivity.
  - destruct (out l w) as [x w0]. rewrite IH.
    destruct (run_io out h (k x) w0) as [[[a | e] w1] t1].
    + destruct (run_io out h (f a) w1) as [[r w2] t2]. reflexivity.
    + reflexivity.
  - destruct (h R c w) as [x w0]. rewrite IH.
    destruct (run_io out h (k x) w0) as [[[a | e] w1] t1].
    + destruct (run_io out h (f a) w1) as [[r w2] t2]. reflexivity.
    + reflexivity.
Qed.

Lemma run_io_try_except {A} (p : prog A) (hd : exn -> prog A) (w : W) :
  run_io out h (try_except p hd) w =
  match run_io out h p w with
  | (Ok a, w1, t1) => (Ok a, w1, t1)
  | (Err e, w1, t1) =>
      let '(r, w2, t2) := run_io out h (hd e) w1 in (r, w2, (t1 ++ t2)%list)
  end.
Proof.
  revert w. induction p as [a | e | l k IH | R c k IH]; intros w;
    cbn [try_except run_io].
  - reflexivity.
  - destruct (run_io out h (hd e) w) as [[r w2] t2]. reflexivity.
  - destruct (out l w) as [x w0]. rewrite IH.
    destruct (run_io out h (k x) w0) as [[[a | e] w1] t1].
    + reflexivity.
    + destruct (run_io out h (hd e) w1) as [[r w2] t2]. reflexivity.
  - destruct (h R c w) as [x w0]. rewrite IH.
    destruct (run_io out h (k x) w0) as [[[a | e] w1] t1].
    + reflexivity.
    + destruct (run_io out h (hd e) w1) as [[r w2] t2]. reflexivity.
Qed.

Lemma run_io_attempt {A} (p : prog A) (w : W) :
  run_io out h (attempt p) w =
  let '(r, w1, t1) := run_io out h p w in (Ok r, w1, t1).
Proof.
  unfold attempt. rewrite run_io_try_except, run_io_bind.
  destruct (run_io out h p w) as [[[a | e] w1] t1]; cbn [run_io];
    now rewrite ?app_nil_r.
Qed.

(** On a standard output that takes every line, the run is [run]. *)
Lemma run_io_accepts {A} (p : prog A) (w : W) :
  accepts out -> run_io out h p w = run h p w.
Proof.
  intros Hout. revert w.
  induction p as [a | e | l k IH | R c k IH]; intros w; cbn [run_io run].
  - reflexivity.
  - reflexivity.
  - rewrite Hout, IH. reflexivity.
  - destruct (h R c w) as [x w0]. now rewrite IH.
Qed.

End RunFacts.

Section Linking.
Context {W : Type} (h : world W).


(** [optimize_image] prints nothing. *)
Lemma optimize_image_printed pil self inp out w :
  printed (trace (run h (optimize_image pil self inp out) w)) = [].
Proof.
  unfold optimize_image. destruct pil; run_simpl; [|reflexivity].
  run_all h; reflexivity.
Qed.


(** [optimize_image] saves at most once: to its output path, as JPEG, at the
    quality of the processor, with the encoder's optimisation. *)
Lemma optimize_image_save_calls pil self inp out w :
  (List.length (save_calls (trace (run h (optimize_image pil self inp out) w))) <= 1)%nat /\
  Forall (fun s => saved_path s = optimize_target self inp out /\
                   saved_format s = "JPEG" /\
                   saved_quality s = quality self /\
                   saved_optimize s = true)
    (save_calls (trace (run h (optimize_image pil self inp out) w))).
Proof.
  unfold optimize_image, optimize_target.
  destruct pil; run_simpl; [|split; [cbn; lia | constructor]].
  run_all h.
  all: cbn [save_calls flat_map app List.length]; split; [lia|].
  all: repeat constructor.
Qed.

(** When [optimize_image] returns, it returns its output path, and it has
    saved exactly once. *)
Lemma optimize_image_returns pil self inp out w p :
  outcome (run h (optimize_image pil self inp out) w) = Ok p ->
  p = optimize_target self inp out /\
  List.length (save_calls (trace (run h (optimize_image pil self inp out) w))) = 1%nat.
Proof.
  unfold optimize_image, optimize_target.
  destruct pil; run_simpl; [|discriminate].
  run_all h.
  all: cbn [save_calls flat_map app List.length]; intros [= <-]; split; reflexivity.
Qed.


(** *** [create_thumbnail] *)

(** [create_thumbnail] saves at most once: to its output path, as JPEG, at
    quality 90. *)
Lemma create_thumbnail_save_calls pil self inp out sz w :
  (List.length (save_calls (trace (run h (create_thumbnail pil self inp out sz) w))) <= 1)%nat /\
  Forall (fun s => saved_path s = thumbnail_target self inp out /\
                   saved_format s = "JPEG" /\
                   saved_quality s = 90 /\
                   saved_optimize s = true)
    (save_calls (trace (run h (create_thumbnail pil self inp out sz) w))).
Proof.
  unfold create_thumbnail, thumbnail_target.
  destruct pil; run_simpl; [|split; [cbn; lia | constructor]].
  run_all h.
  all: cbn [save_calls flat_map app List.length]; split; [lia|].
  all: repeat constructor.
Qed.

Lemma create_thumbnail_returns pil self inp out sz w p :
  outcome (run h (create_thumbnail pil self inp out sz) w) = Ok p ->
  p = thumbnail_target self inp out /\
  List.length (save_calls (trace (run h (create_thumbnail pil self inp out sz) w))) = 1%nat.
Proof.
  unfold create_thumbnail, thumbnail_target.
  destruct pil; run_simpl; [|discriminate].
  run_all h.
  all: cbn [save_calls flat_map app List.length]; intros [= <-]; split; reflexivity.
Qed.

(** Without Pillow, [optimize_image] raises at once. *)
Lemma optimize_image_unavailable self inp out w :
  run h (optimize_image false self inp out) w =
  (Err (RuntimeError "Pillow library is required for image processing"), w, []).
Proof. reflexivity. Qed.

End Linking.

(** ** The batch loop *)

Section BatchFacts.
Context {W : Type} (h : world W).
Variables (pil : bool) (self : ComicImageProcessor) (output_dir : string).

(** The loop is a visit of the entries: it never raises, and it returns the
    list it started from followed by the output paths of the entries whose
    [optimize_image] returned, in the order of the visit. *)
Lemma batch_loop_visits (entries : list PurePath.t) :
  forall (acc : list string) (w : W),
  exists log w' t,
    visits h pil self output_dir entries w log w' t /\
    run h (batch_loop pil self output_dir entries acc) w =
    (Ok (acc ++ successes output_dir log)%list, w', t).
Proof.
  induction entries as [|f rest IH]; intros acc w.
  - exists [], w, []. split; [constructor|].
    cbn [batch_loop run successes flat_map]. now rewrite app_nil_r.
  - cbn [batch_loop].
    change (str_in (PyStr.lower (PurePath.suffix f)) supported_formats)
      with (selected f).
    change (os_path_join output_dir (PurePath.stem f ++ ".jpg"))
      with (batch_output_path output_dir f).
    destruct (selected f) eqn:Es.
    + rewrite run_bind. cbn [try_block]. rewrite run_bind, run_attempt, run_bind.
      destruct (run h (optimize_image pil self (PurePath.str f)
                         (Some (batch_output_path output_dir f))) w)
        as [[[p | e] w1] t1] eqn:Er;
        cbn [run bind print attempt try_except try_block].
      * destruct (IH (acc ++ [batch_output_path output_dir f])%list w1)
          as (log & w' & t & V & R).
        rewrite R.
        exists ((f, Ok p) :: log), w', (t1 ++ EvPrint (status_line output_dir f (Ok p)) :: t)%list.
        split; [eapply visits_file; eauto|].
        cbn [successes flat_map is_ok snd fst status_line app].
        rewrite <- !app_assoc, ?app_nil_r. reflexivity.
      * destruct (IH acc w1) as (log & w' & t & V & R).
        rewrite R.
        exists ((f, Err e) :: log), w', (t1 ++ EvPrint (status_line output_dir f (Err e)) :: t)%list.
        split; [eapply visits_file; eauto|].
        cbn [successes flat_map is_ok snd fst status_line app].
        rewrite <- !app_assoc, ?app_nil_r. reflexivity.
    + destruct (IH acc w) as (log & w' & t & V & R).
      exists log, w', t. split; [now apply visits_skip | exact R].
Qed.


(** It prints one line for each of them, [Optimized] or [Error processing],
    and nothing else. *)
Lemma visits_printed entries w log w' t :
  visits h pil self output_dir entries w log w' t ->
  printed t = map (fun x => status_line output_dir (fst x) (snd x)) log.
Proof.
  induction 1 as [| f rest w log w' t Es V IH | f rest w r w1 t1 log w' t Es Er V IH].
  - reflexivity.
  - exact IH.
  - unfold printed in *. rewrite flat_map_app. cbn [flat_map map fst snd].
    pose proof (optimize_image_printed h pil self (PurePath.str f)
                  (Some (batch_output_path output_dir f)) w) as P.
    rewrite Er in P. cbn [trace snd] in P. unfold printed in P. rewrite P.
    cbn [app]. now rewrite IH.
Qed.


(** The number of paths returned is the number of entries that succeeded. *)
Lemma successes_length (log : list (PurePath.t * result string)) :
  List.length (successes output_dir log) =
  List.length (filter (fun x => is_ok (snd x)) log).
Proof.
  induction log as [|[f r] log IH]; [reflexivity|].
  cbn [successes flat_map filter snd fst]. destruct (is_ok r); cbn [app List.length].
  - f_equal. exact IH.
  - exact IH.
Qed.


End BatchFacts.



Lemma str_in_In (x : string) (xs : list string) :
  str_in x xs = true <-> In x xs.
Proof.
  unfold str_in. rewrite existsb_exists. split.
  - intros (y & Hy & E). apply String.eqb_eq in E. now subst.
  - intros H. exists x. split; [assumption | apply String.eqb_refl].
Qed.

(** Without Pillow, every selected entry fails with the error of the missing
    library, no call is made, and the world stays as it is. *)
Lemma visits_unavailable {W} (h : world W) self output_dir entries w log w' t :
  visits h false self output_dir entries w log w' t ->
  log = map (fun f => (f, Err (RuntimeError
                         "Pillow library is required for image processing")))
            (filter selected entries) /\
  w' = w /\ call_names t = [].
Proof.
  induction 1 as [| f rest w log w' t Es V IH | f rest w r w1 t1 log w' t Es Er V IH].
  - repeat split.
  - cbn [filter]. rewrite Es. exact IH.
  - cbn [filter]. rewrite Es. cbn [map].
    rewrite optimize_image_unavailable in Er. injection Er as <- <- <-.
    destruct IH as (-> & -> & IH). repeat split. exact IH.
Qed.

(** [batch_optimize] as a whole: the output directory is made first, then
    the input directory is listed, and then its entries are visited.  A
    failure of one of the first two calls is the only way out by an
    exception. *)
Lemma batch_optimize_run {W} (h : world W) pil self input_dir output_dir w :
  let out := batch_target input_dir output_dir in
  let mk := Path_mkdir (PurePath.parse out) true true in
  let ls := os_listdir (PurePath.parse input_dir) in
  match h _ mk w with
  | (Err e, w1) =>
      run h (batch_optimize pil self input_dir output_dir) w
      = (Err e, w1, [EvCall mk (Err e)])
  | (Ok u, w1) =>
      match h _ ls w1 with
      | (Err e, w2) =>
          run h (batch_optimize pil self input_dir output_dir) w
          = (Err e, w2, [EvCall mk (Ok u); EvCall ls (Err e)])
      | (Ok names, w2) =>
          exists log w' t,
            visits h pil self out
              (map (PurePath.make_child (PurePath.parse input_dir)) names)
              w2 log w' t /\
            run h (batch_optimize pil self input_dir output_dir) w
            = (Ok (successes out log), w',
               EvCall mk (Ok u) :: EvCall ls (Ok names) :: t)
      end
  end.
Proof.
  intros out mk ls. unfold batch_optimize.
  change (match output_dir with
          | Some d => d
          | None => os_path_join input_dir "optimized"
          end) with out.
  fold mk. fold ls. run_simpl.
  destruct (h unit mk w) as [[u | e] w1]; [|reflexivity].
  run_simpl.
  destruct (h (list string) ls w1) as [[names | e] w2]; [|reflexivity].
  run_simpl.
  destruct (batch_loop_visits h pil self out
              (map (PurePath.make_child (PurePath.parse input_dir)) names) [] w2)
    as (log & w' & t & V & R).
  exists log, w', t. split; [exact V|].
  rewrite R. reflexivity.
Qed.

(** ** The batch loop on any standard output *)

(** What a run ended on is what its last part ended on. *)
Lemma last_failed (pre t : list event) (line : string) (e : exn) :
  last t (EvPrint "") = EvPrintFailed line e ->
  last (pre ++ t) (EvPrint "") = EvPrintFailed line e.
Proof.
  intros H. destruct t as [|x t]; [discriminate|].
  induction pre as [|y pre IH]; [exact H|].
  cbn [app last]. destruct (pre ++ x :: t)%list eqn:E; [|exact IH].
  now destruct pre.
Qed.

Section BatchOnAnyOutput.
Context {W : Type} (out : stdout W) (h : world W).
Variables (pil : bool) (self : ComicImageProcessor) (output_dir : string).

(** The exception that leaves the loop is that of the [print] of an
    [Error processing] line, which is the last thing the loop did: the
    exception of [optimize_image] and that of the [print] of an [Optimized]
    line are caught. *)
Lemma batch_loop_raises (entries : list PurePath.t) :
  forall (acc : list string) (w : W) (e : exn),
    outcome (run_io out h (batch_loop pil self output_dir entries acc) w) = Err e ->
    exists line,
      last (trace (run_io out h (batch_loop pil self output_dir entries acc) w))
        (EvPrint "") = EvPrintFailed line e /\
      PyStr.startswith "Error processing " line = true.
Proof.
  induction entries as [|f rest IH]; intros acc w e; [discriminate|].
  cbn [batch_loop].
  destruct (str_in (PyStr.lower (PurePath.suffix f)) supported_formats); [|apply IH].
  rewrite run_io_bind. cbn [try_block].
  rewrite run_io_bind, run_io_attempt, run_io_bind.
  assert (Go : forall pre a w0,
             outcome (let '(r, w2, t2) :=
                        run_io out h (batch_loop pil self output_dir rest a) w0 in
                      (r, w2, (pre ++ t2)%list)) = Err e ->
             exists line,
               last (trace (let '(r, w2, t2) :=
                              run_io out h (batch_loop pil self output_dir rest a) w0 in
                            (r, w2, (pre ++ t2)%list))) (EvPrint "")
               = EvPrintFailed line e /\
               PyStr.startswith "Error processing " line = true).
  { intros pre a w0. specialize (IH a w0 e).
    destruct (run_io out h (batch_loop pil self output_dir rest a) w0) as [[r w2] t2].
    cbn [outcome trace fst snd] in *. intros Hr.
    destruct (IH Hr) as (line & Hl & Hs). exists line. split; [|exact Hs].
    now apply last_failed. }
  destruct (run_io out h (optimize_image pil self (PurePath.str f)
                            (Some (os_path_join output_dir (PurePath.stem f ++ ".jpg")))) w)
    as [[[p | e1] w1] t1];
    cbn [run_io bind attempt try_except try_block print].
  - destruct (out _ w1) as [[u | e2] w2]; cbn [run_io bind try_except].
    + apply Go.
    + destruct (out _ w2) as [[u | e3] w3]; cbn [run_io bind try_except].
      * apply Go.
      * cbn [outcome trace fst snd]. intros [= <-].
        eexists. split; [apply last_failed; reflexivity | reflexivity].
  - destruct (out _ w1) as [[u | e3] w3]; cbn [run_io bind try_except].
    + apply Go.
    + cbn [outcome trace fst snd]. intros [= <-].
      eexists. split; [apply last_failed; reflexivity | reflexivity].
Qed.

End BatchOnAnyOutput.

(** * Facts about strings and paths *)

Module PathFacts.
Import PyStr PurePath.

Lemma append_nil_r (s : string) : s ++ "" = s.
Proof. induction s; cbn; congruence. Qed.

Lemma append_assoc (a b c : string) : (a ++ b) ++ c = a ++ (b ++ c).
Proof. induction a; cbn; congruence. Qed.

Lemma contains_append (c : ascii) (a b : string) :
  contains c (a ++ b) = contains c a || contains c b.
Proof.
  induction a as [|x a IH]; cbn; [reflexivity|].
  rewrite IH. now rewrite orb_assoc.
Qed.

Lemma endswith_append (p a : string) : endswith p (a ++ p) = true.
Proof.
  induction a as [|x a IH]; cbn [append].
  - destruct p; cbn [endswith]; rewrite String.eqb_refl; reflexivity.
  - cbn [endswith]. rewrite IH. apply orb_true_r.
Qed.

Lemma take_drop (i : nat) (s : string) : take i s ++ drop i s = s.
Proof.
  revert s. induction i as [|i IH]; intros [|c s]; cbn; try reflexivity.
  now rewrite IH.
Qed.

Lemma contains_take (c : ascii) (i : nat) (s : string) :
  contains c s = false -> contains c (take i s) = false.
Proof.
  revert s. induction i as [|i IH]; intros [|x s]; cbn; try reflexivity.
  intros H. apply orb_false_iff in H as [H1 H2].
  rewrite H1. cbn. now apply IH.
Qed.

(** *** Splitting and joining *)

Lemma split_not_nil (sep : ascii) (s : string) : split sep s <> [].
Proof.
  destruct s as [|c s]; cbn; [discriminate|].
  destruct (Ascii.eqb c sep); [discriminate|].
  destruct (split sep s); discriminate.
Qed.

(** No piece of a split holds the separator. *)
Lemma split_pieces (sep : ascii) (s : string) :
  Forall (fun x => contains sep x = false) (split sep s).
Proof.
  induction s as [|c s IH]; cbn [split].
  - repeat constructor.
  - destruct (Ascii.eqb c sep) eqn:E.
    + constructor; [reflexivity | exact IH].
    + destruct (split sep s) as [|x t].
      * repeat constructor. cbn. now rewrite E.
      * inversion IH as [|? ? Hx Ht]; subst. constructor; [|exact Ht].
        cbn. now rewrite E, Hx.
Qed.

(** A string without the separator is its own split. *)
Lemma split_one (sep : ascii) (s : string) :
  contains sep s = false -> split sep s = [s].
Proof.
  induction s as [|c s IH]; cbn; [reflexivity|].
  intros H. apply orb_false_iff in H as [H1 H2].
  rewrite H1. now rewrite (IH H2).
Qed.

(** Splitting what comes before the first separator from the rest. *)
Lemma split_append (sep : ascii) (a b : string) :
  contains sep a = false ->
  split sep (a ++ String sep b) = a :: split sep b.
Proof.
  induction a as [|c a IH]; cbn.
  - intros _. now rewrite Ascii.eqb_refl.
  - intros H. apply orb_false_iff in H as [H1 H2].
    rewrite H1. now rewrite (IH H2).
Qed.

(** Splitting a join gives the pieces back. *)
Lemma split_join (ps : list string) :
  ps <> [] -> Forall (fun x => contains "/" x = false) ps ->
  split "/" (join "/" ps) = ps.
Proof.
  induction ps as [|x ps IH]; [congruence|].
  intros _ H. inversion H as [|? ? Hx Hps]; subst.
  destruct ps as [|y ps].
  - cbn [join]. now apply split_one.
  - change (join "/" (x :: y :: ps)) with (x ++ String "/" (join "/" (y :: ps))).
    rewrite split_append by assumption.
    f_equal. apply IH; [discriminate | assumption].
Qed.

Lemma filter_kept (ps : list string) :
  Forall component ps -> filter kept ps = ps.
Proof.
  induction 1 as [|x ps [_ Hx] _ IH]; cbn; [reflexivity|].
  now rewrite Hx, IH.
Qed.

Lemma filter_empty (ps : list string) :
  filter kept ("" :: ps) = filter kept ps.
Proof. reflexivity. Qed.

Lemma component_nonempty (x : string) :
  component x -> exists c s, x = String c s /\ Ascii.eqb c "/" = false.
Proof.
  intros [H1 H2]. destruct x as [|c s]; [discriminate|].
  exists c, s. split; [reflexivity|].
  cbn in H1. now apply orb_false_iff in H1 as [H1 _].
Qed.

(** *** Parsing *)

Lemma parse_well_formed (s : string) : well_formed (parse s).
Proof.
  split.
  - cbn [parse root].
    destruct (startswith "/" s); [|now left].
    destruct (startswith "//" s && negb (startswith "///" s)); auto.
  - cbn [parse parts]. apply Forall_forall. intros x Hx.
    apply filter_In in Hx as [Hx Hk]. split; [|exact Hk].
    pose proof (split_pieces "/" s) as F.
    rewrite Forall_forall in F. now apply F.
Qed.

(** Parsing what [str] prints gives the path back. *)
Lemma parse_str (p : t) : well_formed p -> parse (str p) = p.
Proof.
  destruct p as [r ps]. intros [Hr Hps]. cbn [root parts] in *.
  assert (Hno : Forall (fun x => contains "/" x = false) ps).
  { eapply Forall_impl; [|exact Hps]. now intros x [H _]. }
  destruct ps as [|x ps].
  - destruct Hr as [-> | [-> | ->]]; reflexivity.
  - inversion Hps as [|? ? Hx Hps']; subst.
    destruct (component_nonempty x Hx) as (c & s & -> & Hc).
    assert (Hj : exists rest, join "/" (String c s :: ps) = String c rest).
    { destruct ps; cbn [join]; eauto. cbn. eauto. }
    destruct Hj as (rest & Hj).
    assert (Hsplit : split "/" (join "/" (String c s :: ps)) = String c s :: ps).
    { apply split_join; [discriminate | assumption]. }
    assert (Hc' : Ascii.eqb "/" c = false) by (now rewrite Ascii.eqb_sym).
    unfold str, parse. cbn [root parts].
    destruct Hr as [-> | [-> | ->]].
    + cbn [append]. rewrite Hj. cbn [startswith]. rewrite Hc'. cbn [andb].
      rewrite <- Hj, Hsplit. now rewrite filter_kept.
    + change ("/" ++ join "/" (String c s :: ps))
        with (String "/" (join "/" (String c s :: ps))).
      rewrite Hj. cbn [startswith]. rewrite Ascii.eqb_refl, Hc'. cbn [andb].
      rewrite <- Hj.
      change (String "/" (join "/" (String c s :: ps)))
        with ("" ++ String "/" (join "/" (String c s :: ps))).
      rewrite split_append by reflexivity. rewrite Hsplit.
      rewrite !filter_empty. now rewrite filter_kept.
    + change ("//" ++ join "/" (String c s :: ps))
        with (String "/" (String "/" (join "/" (String c s :: ps)))).
      rewrite Hj. cbn [startswith]. rewrite Ascii.eqb_refl, Hc'. cbn [andb negb].
      rewrite <- Hj.
      change (String "/" (String "/" (join "/" (String c s :: ps))))
        with ("" ++ String "/" ("" ++ String "/" (join "/" (String c s :: ps)))).
      rewrite !split_append by reflexivity. rewrite Hsplit.
      rewrite !filter_empty. now rewrite filter_kept.
Qed.

(** *** Names, stems and suffixes *)

(** The name is the stem followed by the suffix. *)
Lemma name_stem_suffix (p : t) : name p = stem p ++ suffix p.
Proof.
  unfold stem, suffix. destruct (suffix_index (name p)) as [i|].
  - symmetry. apply take_drop.
  - symmetry. apply append_nil_r.
Qed.

Lemma last_component (ps : list string) :
  Forall component ps -> contains "/" (last ps "") = false.
Proof.
  induction 1 as [|x ps [Hx _] Hps IH]; [reflexivity|].
  destruct ps; [exact Hx | exact IH].
Qed.

Lemma stem_no_slash (p : t) :
  well_formed p -> contains "/" (stem p) = false.
Proof.
  intros [_ H]. pose proof (last_component _ H) as N. fold (name p) in N.
  unfold stem. destruct (suffix_index (name p)); [now apply contains_take | exact N].
Qed.

(** The name given to the output file is a single component. *)
Lemma output_name_component (p : t) (sfx : string) :
  well_formed p -> contains "/" sfx = false ->
  component (stem p ++ sfx ++ ".jpg").
Proof.
  intros Hp Hs. split.
  - rewrite !contains_append, stem_no_slash, Hs by assumption. reflexivity.
  - pose proof (endswith_append ".jpg" (stem p ++ sfx)) as E.
    rewrite append_assoc in E. unfold kept.
    destruct (String.eqb_spec (stem p ++ sfx ++ ".jpg") "") as [E0|_];
      [rewrite E0 in E; discriminate|].
    destruct (String.eqb_spec (stem p ++ sfx ++ ".jpg") ".") as [E0|_];
      [rewrite E0 in E; discriminate|].
    reflexivity.
Qed.

(** Joining a single component appends it. *)
Lemma joinpath_component (p : t) (nm : string) :
  component nm ->
  joinpath p nm = {| root := root p; parts := parts p ++ [nm] |}.
Proof.
  intros Hc. destruct (component_nonempty nm Hc) as (c & s & E & Hne).
  destruct Hc as [Hno Hk].
  unfold joinpath, parse. cbn [root parts].
  assert (S0 : startswith "/" nm = false).
  { rewrite E. cbn [startswith]. now rewrite Ascii.eqb_sym, Hne. }
  rewrite S0. cbn [String.eqb]. rewrite split_one by assumption.
  cbn [filter]. now rewrite Hk.
Qed.

Lemma removelast_component (ps : list string) :
  Forall component ps -> Forall component (removelast ps).
Proof.
  induction 1 as [|x ps Hx Hps IH]; [constructor|].
  cbn [removelast]. destruct ps; [constructor|]. now constructor.
Qed.

Lemma parent_well_formed (p : t) : well_formed p -> well_formed (parent p).
Proof.
  intros [Hr Hps]. split; [exact Hr|]. now apply removelast_component.
Qed.

(** The child [nm] of a path: its parent is the path and its name is [nm]. *)
Lemma child_parent_name (p : t) (nm : string) :
  let q := {| root := root p; parts := parts p ++ [nm] |} in
  parent q = p /\ name q = nm.
Proof.
  destruct p as [r ps]. unfold parent, name. cbn [root parts]. split.
  - now rewrite removelast_last.
  - apply last_last.
Qed.

Lemma join_last (sep : string) (ps : list string) (x : string) :
  exists pre, join sep (ps ++ [x]) = pre ++ x.
Proof.
  induction ps as [|y ps [pre IH]].
  - now exists "".
  - exists (y ++ sep ++ pre). cbn [app].
    change (join sep (y :: ps ++ [x]))
      with (match (ps ++ [x])%list with
            | [] => y
            | _ :: _ => y ++ sep ++ join sep (ps ++ [x])
            end).
    destruct (ps ++ [x])%list eqn:E.
    + now destruct ps.
    + rewrite IH. now rewrite !append_assoc.
Qed.

(** What [str] prints of a path ends with the last component. *)
Lemma str_last (r : string) (ps : list string) (x : string) :
  exists pre, str {| root := r; parts := ps ++ [x] |} = pre ++ x.
Proof.
  destruct (join_last "/" ps x) as (pre & E).
  exists (r ++ pre). unfold str. cbn [root parts].
  destruct (ps ++ [x])%list eqn:El; [now destruct ps|].
  rewrite E. destruct r; now rewrite ?append_assoc.
Qed.

End PathFacts.

(** ** The generated output path *)

Section OutputPath.
Import PyStr PurePath PathFacts.
Variables (self : ComicImageProcessor) (input_path : string) (sfx : string).
Hypothesis sfx_no_slash : contains "/" sfx = false.

Let p := parse input_path.
Let nm := stem p ++ sfx ++ ".jpg".

(** The generated path is the sibling of the input named stem, suffix and
    [.jpg]. *)
Lemma generated_path_eq :
  _generate_output_path self input_path (Some sfx) =
  str {| root := root (parent p); parts := parts (parent p) ++ [nm] |}.
Proof.
  unfold _generate_output_path. fold p. fold nm.
  rewrite joinpath_component; [reflexivity|].
  apply output_name_component; [apply parse_well_formed | assumption].
Qed.

(** Read back as a path, it has the parent of the input and that name. *)
Lemma generated_path_parsed :
  parent (parse (_generate_output_path self input_path (Some sfx))) = parent p /\
  name (parse (_generate_output_path self input_path (Some sfx))) = nm.
Proof.
  rewrite generated_path_eq.
  assert (C : component nm)
    by (apply output_name_component; [apply parse_well_formed | assumption]).
  rewrite parse_str.
  - apply child_parent_name.
  - pose proof (parent_well_formed p (parse_well_formed input_path)) as [Hr Hps].
    split; [exact Hr|]. cbn [parts]. apply Forall_app. split; [exact Hps|].
    now constructor.
Qed.

(** It ends with [.jpg]. *)
Lemma generated_path_jpg :
  endswith ".jpg" (_generate_output_path self input_path (Some sfx)) = true.
Proof.
  rewrite generated_path_eq.
  destruct (str_last (root (parent p)) (parts (parent p)) nm) as (pre & ->).
  unfold nm. rewrite <- !append_assoc. apply endswith_append.
Qed.

End OutputPath.

(** ** The mode conversion *)

Section ConvertFirst.
Context {W : Type} (h : world W).
Hypothesis modes_kept : keeps_modes h.
Variables (self : ComicImageProcessor) (input_path : string)
          (output_path : option string) (w : W) (img : Image.t) (w1 : W).
Hypothesis opened : h _ (Image_open input_path) w = (Ok img, w1).
Hypothesis listed : str_in (Image.mode img) ["RGBA"; "LA"; "P"] = true.

Ltac modes_known :=
  destruct modes_kept as (K1 & K2 & K3);
  repeat match goal with
         | E : h _ (Image_convert _ _) _ = (Ok _, _) |- _ => apply K1 in E
         | E : h _ (Image_resize _ _ _) _ = (Ok _, _) |- _ => apply K2 in E
         | E : h _ (Image_thumbnail _ _ _) _ = (Ok _, _) |- _ => apply K3 in E
         end.

Lemma optimize_image_converts_first :
  let t := trace (run h (optimize_image true self input_path output_path) w) in
  (exists r t', t = EvCall (Image_open input_path) (Ok img)
                     :: EvCall (Image_convert img "RGB") r :: t') /\
  Forall (fun c => Image.mode (fst (fst c)) = "RGB") (resize_calls t) /\
  Forall (fun s => Image.mode (saved_image s) = "RGB") (save_calls t).
Proof.
  unfold optimize_image. run_simpl. rewrite opened. run_simpl. rewrite listed.
  run_all h.
  all: split; [eexists; eexists; reflexivity|].
  all: cbn [resize_calls save_calls flat_map app]; split; repeat constructor.
  all: cbn [fst snd saved_image]; modes_known; congruence.
Qed.

Lemma create_thumbnail_converts_first (size : option (Z * Z)) :
  let t := trace (run h (create_thumbnail true self input_path output_path size) w) in
  (exists r t', t = EvCall (Image_open input_path) (Ok img)
                     :: EvCall (Image_convert img "RGB") r :: t') /\
  Forall (fun c => Image.mode (fst (fst c)) = "RGB") (thumbnail_calls t) /\
  Forall (fun s => Image.mode (saved_image s) = "RGB") (save_calls t).
Proof.
  unfold create_thumbnail. run_simpl. rewrite opened. run_simpl. rewrite listed.
  run_all h.
  all: split; [eexists; eexists; reflexivity|].
  all: cbn [thumbnail_calls save_calls flat_map app]; split; repeat constructor.
  all: cbn [fst snd saved_image]; modes_known; congruence.
Qed.

End ConvertFirst.

(** Only the three listed modes are converted. *)
Lemma other_modes_not_converted {W} (h : world W) self input_path output_path size
    w img w1 :
  h _ (Image_open input_path) w = (Ok img, w1) ->
  str_in (Image.mode img) ["RGBA"; "LA"; "P"] = false ->
  convert_calls (trace (run h (optimize_image true self input_path output_path) w)) = [] /\
  convert_calls (trace (run h (create_thumbnail true self input_path output_path size) w)) = [].
Proof.
  intros opened unlisted. split.
  - unfold optimize_image. run_simpl. rewrite opened. run_simpl. rewrite unlisted.
    run_all h; reflexivity.
  - unfold create_thumbnail. run_simpl. rewrite opened. run_simpl. rewrite unlisted.
    run_all h; reflexivity.
Qed.

(** The Pillow of the examples keeps the modes. *)
Lemma sandbox_keeps_modes : keeps_modes Sandbox.pillow.
Proof.
  repeat split.
  - intros im m w im' w' E. cbn in E. injection E as <- _. reflexivity.
  - intros im sz rs w im' w' E. cbn in E.
    destruct ((fst sz <? 1) || (snd sz <? 1)); [discriminate|].
    injection E as <- _. reflexivity.
  - intros im sz rs w im' w' E. cbn in E. injection E as <- _. reflexivity.
Defined.

(** * The properties of the specification *)

Import Float64.

(** C1.  An image within the bounds is never resized: for a decoded image
    whose width is between 1 and [max_width] and whose height is between 1 and
    [max_height], [optimize_image] makes no [resize] call and every image it
    encodes has the size of the decoded one (the mode conversion keeping the
    size); the ratio [min(width_ratio, height_ratio, 1.0)], whenever it is
    computed, is 1.0; and with bounds in the range of floats the ratio is
    computed, no resize is planned, the size that reaches the encoder is the
    original one, and so is the size after a second pass over that output. *)
Theorem C1_within_bounds_no_resize :
  forall (W : Type) (h : world W) (self : ComicImageProcessor)
         (input_path : string) (output_path : option string)
         (w : W) (img : Image.t) (w1 : W),
    h _ (Image_open input_path) w = (Ok img, w1) ->
    (forall rgb w2, h _ (Image_convert img "RGB") w1 = (Ok rgb, w2) ->
                    Image.size rgb = Image.size img) ->
    1 <= Image.width img <= max_width self ->
    1 <= Image.height img <= max_height self ->
    let t := trace (run h (optimize_image true self input_path output_path) w) in
    resize_calls t = [] /\
    Forall (fun s => Image.size (saved_image s) = Image.size img) (save_calls t) /\
    (forall r, resize_ratio self (Image.size img) = Ok r -> r = one) /\
    (max_width self <= DBL_MAX -> max_height self <= DBL_MAX ->
     resize_ratio self (Image.size img) = Ok one /\
     resize_plan self (Image.size img) = Ok None /\
     output_size self (Image.size img) = Ok (Image.size img) /\
     rbind (output_size self (Image.size img)) (output_size self)
       = Ok (Image.size img)).
Proof.
  intros W h self input_path output_path w img w1 Hopen Hconv Hw Hh t.
  unfold Image.width, Image.height in Hw, Hh.
  destruct (Image.size img) as [ow oh] eqn:Es. cbn [fst snd] in Hw, Hh.
  assert (Hratio : forall r, resize_ratio self (ow, oh) = Ok r -> r = one).
  { intros r. now apply ResizeFacts.resize_ratio_within. }
  assert (Hno : forall a a0 im,
             Image.size im = (ow, oh) ->
             int_truediv (max_width self) ow = Ok a ->
             int_truediv (max_height self) oh = Ok a0 ->
             ltb (min3 a a0 one) one = false).
  { intros a a0 im _ Ea Ea0.
    rewrite (Hratio (min3 a a0 one)).
    - unfold ltb. apply Z.ltb_irrefl.
    - unfold resize_ratio. now rewrite Ea, Ea0. }
  assert (Hrun : resize_calls t = [] /\
                 Forall (fun s => Image.size (saved_image s) = (ow, oh)) (save_calls t)).
  { subst t. unfold optimize_image. run_simpl. rewrite Hopen.
    run_all h.
    all: try specialize (Hconv _ _ eq_refl).
    all: try (match goal with
              | E1 : Image.size ?im = (?z, ?z0), Hl : ltb _ _ = true |- _ =>
                  exfalso;
                  assert (Hz : (z, z0) = (ow, oh)) by congruence;
                  injection Hz as -> ->;
                  erewrite Hno in Hl by eassumption; discriminate
              end).
    all: cbn [resize_calls save_calls flat_map app]; split; [reflexivity|].
    all: repeat constructor; cbn [saved_image]; congruence. }
  destruct Hrun as [Hr Hs].
  split; [exact Hr|]. split; [exact Hs|]. split; [exact Hratio|].
  intros HW HH.
  assert (E1 : resize_ratio self (ow, oh) = Ok one).
  { rewrite ResizeFacts.resize_ratio_finite by lia.
    f_equal. apply Hratio. apply ResizeFacts.resize_ratio_finite; lia. }
  assert (E2 : resize_plan self (ow, oh) = Ok None).
  { unfold resize_plan. rewrite E1. cbn [rbind]. unfold ltb.
    now rewrite Z.ltb_irrefl. }
  assert (E3 : output_size self (ow, oh) = Ok (ow, oh)).
  { unfold output_size. now rewrite E2. }
  repeat split; try assumption.
  rewrite E3. cbn [rbind]. exact E3.
Qed.

(** C1 at the 800x600 page of the example directory, under the default
    bounds. *)
Lemma C1_within_bounds_no_resize_witness :
  resize_calls
    (trace (run Sandbox.pillow
              (optimize_image true default_processor "comics/page2.JPG" None)
              Sandbox.comics)) = [] /\
  output_size default_processor (800, 600) = Ok (800, 600).
Proof.
  destruct (C1_within_bounds_no_resize Sandbox.state Sandbox.pillow
              default_processor "comics/page2.JPG" None Sandbox.comics
              (Sandbox.picture "RGB" 800 600) Sandbox.comics)
    as (H1 & _ & _ & H4).
  - reflexivity.
  - intros rgb w2 E. injection E as <- _. reflexivity.
  - cbn. lia.
  - cbn. lia.
  - split; [exact H1|].
    destruct H4 as (_ & _ & H & _).
    + vm_compute. discriminate.
    + vm_compute. discriminate.
    + exact H.
Defined.



(** C10.  The truncation can give a zero dimension: under the default bounds
    (1200 by 1800) an image 1 pixel wide and 10000 high, for which
    [w * max_height < h], has [resize_ratio] 0.18 and
    [new_width = int(1 * 0.18) = 0], and [optimize_image] hands the size
    [(0, 1800)] to [resize]. *)
Theorem C10_zero_dimension_reaches_resize :
  exists (self : ComicImageProcessor) (w h : Z),
    0 < w /\ 0 < h /\ 0 < max_width self /\ 0 < max_height self /\
    w * max_height self < h /\
    resize_plan self (w, h) = Ok (Some (0, max_height self)) /\
    exists (W : Type) (hd : world W) (w0 : W) (input_path : string) (im : Image.t),
      Image.size im = (w, h) /\
      resize_calls (trace (run hd (optimize_image true self input_path None) w0))
      = [(im, (0, max_height self), LANCZOS)].
Proof.
  exists default_processor, 1, 10000.
  split; [reflexivity|]. split; [reflexivity|]. split; [reflexivity|].
  split; [reflexivity|]. split; [reflexivity|].
  split; [vm_compute; reflexivity|].
  exists Sandbox.state, Sandbox.pillow, Sandbox.comics, "comics/strip.bmp",
    (Sandbox.picture "RGB" 1 10000).
  split; [reflexivity|]. vm_compute. reflexivity.
Qed.




(** C4, as stated, fails for [batch_optimize]: without Pillow, on the example
    directory, it does not fail; it returns the empty list. *)
Lemma C4_batch_optimize_does_not_fail :
  ~ (forall (W : Type) (h : world W) (self : ComicImageProcessor)
            (input_dir : string) (output_dir : option string) (w : W),
        outcome (run h (batch_optimize false self input_dir output_dir) w)
        = Err dependency_missing).
Proof.
  intros H.
  specialize (H Sandbox.state Sandbox.pillow default_processor "comics" None
                Sandbox.comics).
  vm_compute in H. discriminate H.
Qed.

(** C4, amended.  Without Pillow, [optimize_image], [create_thumbnail] and
    [get_image_info] raise the dependency error at once, before any call to
    the outside.  [batch_optimize] does not: it makes the output directory and
    lists the input directory (a failure of either is what it raises), the
    dependency error of each selected entry is caught and printed, no other
    call is made, and the empty list is returned. *)
Theorem C4_dependency_missing :
  forall (self : ComicImageProcessor),
    (forall input_path output_path,
        optimize_image false self input_path output_path = Raise dependency_missing) /\
    (forall input_path output_path size,
        create_thumbnail false self input_path output_path size
        = Raise dependency_missing) /\
    (forall image_path,
        get_image_info false self image_path = Raise dependency_missing) /\
    (forall (W : Type) (h : world W) input_dir output_dir (w : W),
        let out := batch_target input_dir output_dir in
        let mk := Path_mkdir (PurePath.parse out) true true in
        let ls := os_listdir (PurePath.parse input_dir) in
        let x := run h (batch_optimize false self input_dir output_dir) w in
        match h _ mk w with
        | (Err e, w1) => x = (Err e, w1, [EvCall mk (Err e)])
        | (Ok u, w1) =>
            match h _ ls w1 with
            | (Err e, w2) => x = (Err e, w2, [EvCall mk (Ok u); EvCall ls (Err e)])
            | (Ok names, w2) =>
                outcome x = Ok [] /\ final x = w2 /\
                call_names (trace x) = ["mkdir"; "listdir"] /\
                printed (trace x)
                = map (fun f => "Error processing " ++ PurePath.name f ++ ": "
                                ++ "Pillow library is required for image processing")
                    (filter selected
                       (map (PurePath.make_child (PurePath.parse input_dir)) names))
            end
        end).
Proof.
  intros self. split; [reflexivity|]. split; [reflexivity|]. split; [reflexivity|].
  intros W h input_dir output_dir w out mk ls x.
  pose proof (batch_optimize_run h false self input_dir output_dir w) as R.
  cbv zeta in R. fold out mk ls x in R.
  destruct (h unit mk w) as [[u | e] w1]; [|exact R].
  destruct (h (list string) ls w1) as [[names | e] w2]; [|exact R].
  destruct R as (log & w' & t & V & R).
  pose proof (visits_printed _ _ _ _ _ _ _ _ _ V) as P.
  apply visits_unavailable in V as (-> & -> & N).
  rewrite R. cbn [outcome final trace fst snd].
  split; [|split; [reflexivity|split]].
  - f_equal.
    assert (S0 : forall (e : exn) (l : list PurePath.t),
               successes out (map (fun f => (f, Err e)) l) = [])
      by (intros e l; induction l; [reflexivity | assumption]).
    apply S0.
  - change (call_names (EvCall mk (Ok u) :: EvCall ls (Ok names) :: t))
      with ("mkdir" :: "listdir" :: call_names t).
    now rewrite N.
  - change (printed (EvCall mk (Ok u) :: EvCall ls (Ok names) :: t))
      with (printed t).
    rewrite P, map_map. reflexivity.
Qed.

(** C5, as stated, fails: asked to write the 800x600 page of the example
    directory to [out.png], [optimize_image] returns [out.png]. *)
Lemma C5_returned_path_keeps_extension :
  ~ (forall (W : Type) (h : world W) (pil : bool) (self : ComicImageProcessor)
            (input_path : string) (output_path : option string) (w : W) (p : string),
        outcome (run h (optimize_image pil self input_path output_path) w) = Ok p ->
        PyStr.endswith ".jpg" p = true).
Proof.
  intros H.
  specialize (H Sandbox.state Sandbox.pillow true default_processor
                "comics/page2.JPG" (Some "out.png") Sandbox.comics "out.png").
  assert (E : outcome (run Sandbox.pillow
                         (optimize_image true default_processor "comics/page2.JPG"
                            (Some "out.png")) Sandbox.comics) = Ok "out.png")
    by (vm_compute; reflexivity).
  specialize (H E). vm_compute in H. discriminate H.
Qed.

(** C5, amended.  What [optimize_image] returns is the output path it was
    given, as it is, whatever its extension; only a path it generates itself,
    when none is given, is sure to end with [.jpg].  In both cases the file
    has been written once, to the returned path, in the JPEG format. *)
Theorem C5_returned_path :
  forall (W : Type) (h : world W) (pil : bool) (self : ComicImageProcessor)
         (input_path : string) (output_path : option string) (w : W) (p : string),
    outcome (run h (optimize_image pil self input_path output_path) w) = Ok p ->
    match output_path with
    | Some q => p = q
    | None => p = _generate_output_path self input_path None /\
              PyStr.endswith ".jpg" p = true
    end /\
    exists s,
      save_calls (trace (run h (optimize_image pil self input_path output_path) w)) = [s] /\
      saved_path s = p /\ saved_format s = "JPEG".
Proof.
  intros W h pil self input_path output_path w p E.
  destruct (optimize_image_returns h pil self input_path output_path w p E) as [-> L].
  split.
  - destruct output_path as [q|]; [reflexivity|]. split; [reflexivity|].
    cbn [optimize_target].
    apply (generated_path_jpg self input_path "_optimized"). reflexivity.
  - destruct (optimize_image_save_calls h pil self input_path output_path w) as [_ F].
    destruct (save_calls _) as [|s [|s' l]]; try discriminate L.
    exists s. inversion F as [|? ? (Hp & Hf & _) _]; subst. auto.
Qed.

(** C5, amended, at the call of the counterexample. *)
Lemma C5_returned_path_witness :
  exists s,
    save_calls (trace (run Sandbox.pillow
                         (optimize_image true default_processor "comics/page2.JPG"
                            (Some "out.png")) Sandbox.comics)) = [s] /\
    saved_path s = "out.png" /\ saved_format s = "JPEG".
Proof.
  refine (proj2 (C5_returned_path Sandbox.state Sandbox.pillow true default_processor
                   "comics/page2.JPG" (Some "out.png") Sandbox.comics "out.png" _)).
  vm_compute. reflexivity.
Defined.


(** The selection at work: the case of the suffix does not matter, a name
    that is only a suffix has none, and only the last suffix counts. *)
Example selected_examples :
  map (fun nm => selected (PurePath.parse nm))
      ["page2.JPG"; "a.Jpeg"; "b.webp"; ".png"; "notes.txt"; "c.png.txt";
       "d.tar.bmp"; "e.jpg."; "png"]
  = [true; true; true; false; false; false; true; false; false].
Proof. vm_compute. reflexivity. Qed.

(** C7, as stated, fails: a palette image with alpha (mode [PA], as Pillow
    decodes some TIFF files) has both an alpha channel and a palette, and
    [optimize_image] hands it to the encoder without converting it. *)
Lemma C7_palette_with_alpha_not_converted :
  ~ (forall (W : Type) (h : world W) (self : ComicImageProcessor)
            (input_path : string) (output_path : option string)
            (w : W) (img : Image.t) (w1 : W),
        h _ (Image_open input_path) w = (Ok img, w1) ->
        has_alpha_or_palette (Image.mode img) = true ->
        convert_calls
          (trace (run h (optimize_image true self input_path output_path) w))
        = [(img, "RGB")]).
Proof.
  intros H.
  specialize (H Sandbox.state Sandbox.pillow default_processor "scan.tif" None
                Sandbox.comics (Sandbox.picture "PA" 640 480) Sandbox.comics
                eq_refl eq_refl).
  vm_compute in H. discriminate H.
Qed.

(** C7, amended.  A decoded image whose mode is [RGBA], [LA] or [P] is
    converted to [RGB] by [optimize_image] and by [create_thumbnail] right
    after it is opened: the conversion is their second call, and, with a
    Pillow whose [convert] delivers the mode asked for and whose [resize] and
    [thumbnail] keep the mode, every image they resize, shrink or encode is in
    mode [RGB].  An image of any other mode, the other modes with alpha or a
    palette included, is not converted. *)
Theorem C7_listed_modes_converted_first :
  forall (W : Type) (h : world W) (self : ComicImageProcessor)
         (input_path : string) (output_path : option string) (size : option (Z * Z))
         (w : W) (img : Image.t) (w1 : W),
    keeps_modes h ->
    h _ (Image_open input_path) w = (Ok img, w1) ->
    let t1 := trace (run h (optimize_image true self input_path output_path) w) in
    let t2 := trace (run h (create_thumbnail true self input_path output_path size) w) in
    (str_in (Image.mode img) ["RGBA"; "LA"; "P"] = true ->
     (exists r t', t1 = EvCall (Image_open input_path) (Ok img)
                         :: EvCall (Image_convert img "RGB") r :: t') /\
     Forall (fun c => Image.mode (fst (fst c)) = "RGB") (resize_calls t1) /\
     Forall (fun s => Image.mode (saved_image s) = "RGB") (save_calls t1) /\
     (exists r t', t2 = EvCall (Image_open input_path) (Ok img)
                         :: EvCall (Image_convert img "RGB") r :: t') /\
     Forall (fun c => Image.mode (fst (fst c)) = "RGB") (thumbnail_calls t2) /\
     Forall (fun s => Image.mode (saved_image s) = "RGB") (save_calls t2)) /\
    (str_in (Image.mode img) ["RGBA"; "LA"; "P"] = false ->
     convert_calls t1 = [] /\ convert_calls t2 = []).
Proof.
  intros W h self input_path output_path size w img w1 K O t1 t2. split.
  - intros L.
    destruct (optimize_image_converts_first h K self input_path output_path w img w1 O L)
      as (A1 & A2 & A3).
    destruct (create_thumbnail_converts_first h K self input_path output_path w img w1
                O L size) as (B1 & B2 & B3).
    repeat (split; [assumption|]). assumption.
  - intros L. now apply other_modes_not_converted with (w1 := w1) (img := img).
Qed.

(** C7, amended, at the RGBA page of the example directory. *)
Lemma C7_listed_modes_converted_first_witness :
  Forall (fun s => Image.mode (saved_image s) = "RGB")
    (save_calls (trace (run Sandbox.pillow
                          (optimize_image true default_processor "comics/page1.png" None)
                          Sandbox.comics))).
Proof.
  destruct (C7_listed_modes_converted_first Sandbox.state Sandbox.pillow
              default_processor "comics/page1.png" None None Sandbox.comics
              (Sandbox.picture "RGBA" 2400 3600) Sandbox.comics
              sandbox_keeps_modes eq_refl) as [H _].
  destruct (H eq_refl) as (_ & _ & S & _). exact S.
Defined.


(** C9.  With no output path given, the output path is a function of the
    input path alone: the name of the input is its stem followed by its
    suffix, and the generated path, read back as a path, has the parent of
    the input and the name made of the stem, [_optimized] (for
    [optimize_image]) or [_thumb] (for [create_thumbnail]) and [.jpg].  It is
    the path every [save] of the method writes to and the path the method
    returns. *)
Theorem C9_default_output_paths :
  forall (self : ComicImageProcessor) (input_path : string),
    let p := PurePath.parse input_path in
    let optimized := _generate_output_path self input_path None in
    let thumb := _generate_output_path self input_path (Some "_thumb") in
    PurePath.name p = PurePath.stem p ++ PurePath.suffix p /\
    (PurePath.parent (PurePath.parse optimized) = PurePath.parent p /\
     PurePath.name (PurePath.parse optimized) = PurePath.stem p ++ "_optimized.jpg" /\
     PyStr.endswith ".jpg" optimized = true) /\
    (PurePath.parent (PurePath.parse thumb) = PurePath.parent p /\
     PurePath.name (PurePath.parse thumb) = PurePath.stem p ++ "_thumb.jpg" /\
     PyStr.endswith ".jpg" thumb = true) /\
    (forall (W : Type) (h : world W) (pil : bool) (w : W),
        let x := run h (optimize_image pil self input_path None) w in
        Forall (fun s => saved_path s = optimized) (save_calls (trace x)) /\
        match outcome x with
        | Ok q => q = optimized /\ exists s, save_calls (trace x) = [s]
        | Err _ => True
        end) /\
    (forall (W : Type) (h : world W) (pil : bool) (size : option (Z * Z)) (w : W),
        let x := run h (create_thumbnail pil self input_path None size) w in
        Forall (fun s => saved_path s = thumb) (save_calls (trace x)) /\
        match outcome x with
        | Ok q => q = thumb /\ exists s, save_calls (trace x) = [s]
        | Err _ => True
        end).
Proof.
  intros self input_path p optimized thumb.
  split; [apply PathFacts.name_stem_suffix|].
  split; [|split; [|split]].
  - destruct (generated_path_parsed self input_path "_optimized" eq_refl) as [A B].
    split; [exact A|]. split; [exact B|].
    apply (generated_path_jpg self input_path "_optimized"). reflexivity.
  - destruct (generated_path_parsed self input_path "_thumb" eq_refl) as [A B].
    split; [exact A|]. split; [exact B|].
    apply (generated_path_jpg self input_path "_thumb"). reflexivity.
  - intros W h pil w x.
    destruct (optimize_image_save_calls h pil self input_path None w) as [L F].
    fold x in L, F. split.
    + eapply Forall_impl; [|exact F]. now intros s (? & _).
    + destruct (outcome x) as [q|e] eqn:E; [|exact I].
      destruct (optimize_image_returns h pil self input_path None w q E) as [-> L1].
      fold x in L1. split; [reflexivity|].
      destruct (save_calls (trace x)) as [|s [|s' l]]; try discriminate L1.
      now exists s.
  - intros W h pil size w x.
    destruct (create_thumbnail_save_calls h pil self input_path None size w) as [L F].
    fold x in L, F. split.
    + eapply Forall_impl; [|exact F]. now intros s (? & _).
    + destruct (outcome x) as [q|e] eqn:E; [|exact I].
      destruct (create_thumbnail_returns h pil self input_path None size w q E)
        as [-> L1].
      fold x in L1. split; [reflexivity|].
      destruct (save_calls (trace x)) as [|s [|s' l]]; try discriminate L1.
      now exists s.
Qed.

(** The generated paths of a few inputs. *)
Example generated_paths :
  map (fun s => _generate_output_path default_processor s None)
      ["foo.png"; "/a/b/c.tar.gz"; "a/b/"; "//x/y.z"; "pages/.hidden"; "./a//b/./c.PNG"]
  = ["foo_optimized.jpg"; "/a/b/c.tar_optimized.jpg"; "a/b_optimized.jpg";
     "//x/y_optimized.jpg"; "pages/.hidden_optimized.jpg"; "a/b/c_optimized.jpg"].
Proof. vm_compute. reflexivity. Qed.

(** * Further properties of the code *)

(** ** The [with] block *)

(** X1.  The image that [Image.open] returns is closed, once, as the last
    call, on every way out of [optimize_image], [create_thumbnail] and
    [get_image_info], an exception included; when [Image.open] raises there
    is nothing to close. *)
Theorem X1_opened_image_is_closed :
  forall (W : Type) (h : world W) (self : ComicImageProcessor)
         (input_path : string) (output_path : option string)
         (size : option (Z * Z)) (w : W),
    let traces :=
      [trace (run h (optimize_image true self input_path output_path) w);
       trace (run h (create_thumbnail true self input_path output_path size) w);
       trace (run h (get_image_info true self input_path) w)] in
    match h _ (Image_open input_path) w with
    | (Ok img, _) =>
        Forall (fun t => close_calls t = [img] /\
                         exists r, last t (EvPrint "") = EvCall (Image_close img) r)
          traces
    | (Err _, _) => Forall (fun t => close_calls t = []) traces
    end.
Proof.
  intros W h self input_path output_path size w traces. subst traces.
  unfold optimize_image, create_thumbnail, get_image_info. run_simpl.
  destruct (h Image.t (Image_open input_path) w) as [[img | e] w1] eqn:Hopen.
  - repeat constructor.
    all: run_all h.
    all: cbn [close_calls flat_map app last]; try reflexivity.
    all: eexists; reflexivity.
  - repeat constructor.
Qed.

(** X2.  A file that cannot be opened: each of the three methods raises the
    exception of [Image.open], and has called nothing else; nothing is
    converted, nothing is written. *)
Theorem X2_open_failure_propagates :
  forall (W : Type) (h : world W) (self : ComicImageProcessor)
         (input_path : string) (output_path : option string)
         (size : option (Z * Z)) (w : W) (e : exn) (w1 : W),
    h _ (Image_open input_path) w = (Err e, w1) ->
    run h (optimize_image true self input_path output_path) w
    = (Err e, w1, [EvCall (Image_open input_path) (Err e)]) /\
    run h (create_thumbnail true self input_path output_path size) w
    = (Err e, w1, [EvCall (Image_open input_path) (Err e)]) /\
    run h (get_image_info true self input_path) w
    = (Err e, w1, [EvCall (Image_open input_path) (Err e)]).
Proof.
  intros W h self input_path output_path size w e w1 Hopen.
  unfold optimize_image, create_thumbnail, get_image_info. run_simpl.
  rewrite Hopen. repeat split.
Qed.

(** X2 at the file of the example directory that is no image. *)
Lemma X2_open_failure_propagates_witness :
  outcome (run Sandbox.pillow
             (optimize_image true default_processor "comics/broken.png" None)
             Sandbox.comics)
  = Err (LibraryError "UnidentifiedImageError"
           "cannot identify image file comics/broken.png").
Proof.
  destruct (X2_open_failure_propagates Sandbox.state Sandbox.pillow default_processor
              "comics/broken.png" None None Sandbox.comics
              (LibraryError "UnidentifiedImageError"
                 "cannot identify image file comics/broken.png")
              Sandbox.comics eq_refl) as [E _].
  rewrite E. reflexivity.
Defined.

(** ** Images without width or height *)

Lemma int_truediv_by_zero (a : Z) :
  int_truediv a 0 = Err (ZeroDivisionError "division by zero").
Proof. reflexivity. Qed.

(** X3.  A decoded image whose width or height is 0 is never resized nor
    encoded: [optimize_image] raises, on the division by the zero dimension
    (a width of 0 gives [ZeroDivisionError] whatever the bounds). *)
Theorem X3_zero_dimension_raises :
  forall (W : Type) (h : world W) (self : ComicImageProcessor)
         (input_path : string) (output_path : option string)
         (w : W) (img : Image.t) (w1 : W),
    h _ (Image_open input_path) w = (Ok img, w1) ->
    (forall rgb w2, h _ (Image_convert img "RGB") w1 = (Ok rgb, w2) ->
                    Image.size rgb = Image.size img) ->
    Image.width img = 0 \/ Image.height img = 0 ->
    let x := run h (optimize_image true self input_path output_path) w in
    is_ok (outcome x) = false /\
    resize_calls (trace x) = [] /\
    save_calls (trace x) = [] /\
    (Image.width img = 0 ->
     resize_plan self (Image.size img) = Err (ZeroDivisionError "division by zero")).
Proof.
  intros W h self input_path output_path w img w1 Hopen Hconv Hzero x.
  unfold Image.width, Image.height in *.
  destruct (Image.size img) as [ow oh] eqn:Es. cbn [fst snd] in Hzero.
  assert (Hrun : is_ok (outcome x) = false /\ resize_calls (trace x) = [] /\
                 save_calls (trace x) = []);
    [|destruct Hrun as (A & B & C); repeat (split; [assumption|]);
      cbn [fst]; intros ->; reflexivity].
  subst x. unfold optimize_image. run_simpl. rewrite Hopen.
  run_all h.
  all: try specialize (Hconv _ _ eq_refl).
  all: try (match goal with
            | E1 : Image.size ?im = (?z, ?z0),
              Ew : int_truediv _ ?z = Ok _, Eh : int_truediv _ ?z0 = Ok _ |- _ =>
                exfalso;
                assert (Hz : (z, z0) = (ow, oh)) by congruence;
                injection Hz as -> ->;
                destruct Hzero as [-> | ->];
                [rewrite int_truediv_by_zero in Ew | rewrite int_truediv_by_zero in Eh];
                discriminate
            end).
  all: repeat split.
Qed.

(** X3 at an image 0 pixels wide. *)
Lemma X3_zero_dimension_raises_witness :
  save_calls (trace (run Sandbox.pillow
                       (optimize_image true default_processor "blank.png" None)
                       blank_world)) = [].
Proof.
  destruct (X3_zero_dimension_raises Sandbox.state Sandbox.pillow default_processor
              "blank.png" None blank_world (Sandbox.picture "RGB" 0 10) blank_world)
    as (_ & _ & S & _).
  - reflexivity.
  - intros rgb w2 E. injection E as <- _. reflexivity.
  - left. reflexivity.
  - exact S.
Defined.

(** ** The size asked of [resize] *)

(** The rounded quotient is not below the exact one by more than 2^-54
    either. *)
Lemma quotient_lt_one_lower (W w : Z) :
  1 <= W -> W < w -> w < 2 ^ 53 ->
  2 * (W * one - round (W * one) w * w) < one.
Proof.
  intros HW Hw Hmax.
  pose proof Float64Facts.one_steps as E1. pose proof Float64Facts.step_pos as Hs.
  set (r := round (W * one) w).
  set (p53 := 2 ^ 53) in *.
  assert (Hp : 0 < p53) by reflexivity.
  assert (Hn : 0 <= W * one) by nia.
  set (j := (W * p53) / w).
  assert (Hj : j * w <= W * p53 < (j + 1) * w).
  { unfold j. pose proof (Z.div_mod (W * p53) w ltac:(lia)).
    pose proof (Z.mod_pos_bound (W * p53) w ltac:(lia)). nia. }
  assert (Hj0 : 0 <= j) by (apply Z.div_pos; nia).
  assert (Hj1 : j + 1 <= p53) by nia.
  pose proof (Float64Facts.round_nearest (W * one) w (j * step) Hn ltac:(lia)
                ltac:(apply Float64Facts.representable_steps; fold p53; lia)) as N1.
  pose proof (Float64Facts.round_nearest (W * one) w ((j + 1) * step) Hn ltac:(lia)
                ltac:(apply Float64Facts.representable_steps; fold p53; lia)) as N2.
  fold r in N1, N2. rewrite E1 in *.
  assert (A1 : Z.abs (j * step * w - W * (p53 * step)) = (W * p53 - j * w) * step) by nia.
  assert (A2 : Z.abs ((j + 1) * step * w - W * (p53 * step)) = ((j + 1) * w - W * p53) * step) by nia.
  rewrite A1 in N1. rewrite A2 in N2.
  assert (2 * (W * (p53 * step) - r * w) <= w * step) by nia.
  nia.
Qed.

(** X4.  [optimize_image] never enlarges, and what it shrinks fills the
    bounds: for positive bounds and an image with dimensions from 1 up to
    2^53, a size [(new_width, new_height)] handed to [resize] has
    [new_width <= w] and [new_height <= h], one of them strictly, and the
    dimension that decided the ratio ends on its bound or one pixel below it. *)
Theorem X4_resize_shrinks_to_fill :
  forall (self : ComicImageProcessor) (w h new_width new_height : Z),
    1 <= max_width self -> 1 <= max_height self ->
    1 <= w < 2 ^ 53 -> 1 <= h < 2 ^ 53 ->
    resize_plan self (w, h) = Ok (Some (new_width, new_height)) ->
    new_width <= w /\ new_height <= h /\
    (new_width < w \/ new_height < h) /\
    (max_width self - 1 <= new_width <= max_width self /\ max_width self < w \/
     max_height self - 1 <= new_height <= max_height self /\ max_height self < h).
Proof.
  intros self w h nw nh HW HH Hw Hh Hplan.
  destruct (ResizeFacts.resize_plan_some_inv self (w, h) (nw, nh) Hplan)
    as (r & x & y & E & Hr & _).
  destruct (ResizeFacts.resize_plan_exceeding self w h r HW HH Hw Hh E Hr)
    as (nw' & nh' & Hplan' & Bw & Bh & Lw & Lh & Aw & Ah).
  rewrite Hplan in Hplan'. injection Hplan' as <- <-.
  assert (H1 : 0 < one) by reflexivity.
  pose proof (ResizeFacts.resize_ratio_inv self w h r ltac:(lia) ltac:(lia) E) as Er.
  set (rw := round (max_width self * one) w) in *.
  set (rh := round (max_height self * one) h) in *.
  pose proof (ResizeFacts.min3_spec rw rh one) as (_ & _ & _ & M).
  rewrite <- Er in M.
  assert (Fill : max_width self - 1 <= nw <= max_width self /\ max_width self < w \/
                 max_height self - 1 <= nh <= max_height self /\ max_height self < h).
  { destruct M as [M | [M | M]]; [left | right | lia].
    - assert (C : max_width self < w).
      { destruct (Z_lt_le_dec (max_width self) w) as [|C]; [assumption|].
        pose proof (Float64Facts.quotient_ge_one (max_width self) w ltac:(lia) C).
        fold rw in H. lia. }
      pose proof (quotient_lt_one_lower (max_width self) w HW C ltac:(lia)) as L.
      fold rw in L. rewrite <- M in L.
      split; [|exact C]. split; [|lia].
      assert (2 * nw * one > 2 * (max_width self) * one - 3 * one) by nia.
      nia.
    - assert (C : max_height self < h).
      { destruct (Z_lt_le_dec (max_height self) h) as [|C]; [assumption|].
        pose proof (Float64Facts.quotient_ge_one (max_height self) h ltac:(lia) C).
        fold rh in H. lia. }
      pose proof (quotient_lt_one_lower (max_height self) h HH C ltac:(lia)) as L.
      fold rh in L. rewrite <- M in L.
      split; [|exact C]. split; [|lia].
      assert (2 * nh * one > 2 * (max_height self) * one - 3 * one) by nia.
      nia. }
  split; [exact Lw|]. split; [exact Lh|]. split; [|exact Fill].
  destruct Fill as [[? ?] | [? ?]]; [left | right]; lia.
Qed.

(** X4 at the 2400x3600 page under the default bounds. *)
Lemma X4_resize_shrinks_to_fill_witness :
  1200 <= 2400 /\ 1800 <= 3600 /\ (1200 < 2400 \/ 1800 < 3600).
Proof.
  destruct (X4_resize_shrinks_to_fill default_processor 2400 3600 1200 1800)
    as (A & B & C & _).
  - cbn. lia.
  - cbn. lia.
  - lia.
  - lia.
  - vm_compute. reflexivity.
  - repeat split; assumption.
Defined.




(** ** Names *)

Lemma append_inj_l (a b c : string) : a ++ b = a ++ c -> b = c.
Proof.
  induction a as [|x a IH]; cbn; [trivial|]. intros E. injection E as E. auto.
Qed.

Lemma length_append (a b : string) :
  String.length (a ++ b) = (String.length a + String.length b)%nat.
Proof. induction a as [|x a IH]; cbn; [reflexivity | now rewrite IH]. Qed.

(** From the last occurrence of a character on, a string starts with it. *)
Lemma rfind_drop (c : ascii) (s : string) :
  0 <= PyStr.rfind c s ->
  exists rest, PyStr.drop (Z.to_nat (PyStr.rfind c s)) s = String c rest.
Proof.
  induction s as [|a s IH]; cbn [PyStr.rfind]; [lia|].
  destruct (0 <=? PyStr.rfind c s) eqn:E.
  - apply Z.leb_le in E. intros _. destruct (IH E) as (rest & Hr).
    exists rest. rewrite Z2Nat.inj_add by lia.
    rewrite Nat.add_comm. exact Hr.
  - destruct (Ascii.eqb a c) eqn:Ea; [|lia].
    intros _. apply Ascii.eqb_eq in Ea. subst. now exists s.
Qed.

(** A suffix is empty or starts with a dot, and then the stem is not empty. *)
Lemma suffix_shape (p : PurePath.t) :
  PurePath.suffix p = "" \/
  (exists rest, PurePath.suffix p = String "." rest) /\ PurePath.stem p <> "".
Proof.
  unfold PurePath.suffix, PurePath.stem, PurePath.suffix_index.
  destruct ((0 <? PyStr.rfind "." (PurePath.name p))
            && (PyStr.rfind "." (PurePath.name p) <? PyStr.len (PurePath.name p) - 1))
    eqn:E; [right | now left].
  apply andb_true_iff in E as [E1 E2]. apply Z.ltb_lt in E1.
  split; [apply rfind_drop; lia|].
  destruct (PurePath.name p) as [|a nm]; [cbn in E1; lia|].
  destruct (Z.to_nat (PyStr.rfind "." (String a nm))) eqn:En; [lia|].
  cbn. discriminate.
Qed.

(** X6.  Without an output path, the input file is not the file written: the
    path generated by [optimize_image] and the one generated by
    [create_thumbnail] differ from the input path, whatever it is. *)
Theorem X6_generated_path_is_not_the_input :
  forall (self : ComicImageProcessor) (input_path : string),
    _generate_output_path self input_path None <> input_path /\
    _generate_output_path self input_path (Some "_thumb") <> input_path.
Proof.
  intros self input_path.
  assert (G : forall sfx c rest,
             PyStr.contains "/" sfx = false -> c <> "."%char ->
             sfx ++ ".jpg" = String c rest ->
             _generate_output_path self input_path (Some sfx) <> input_path).
  { intros sfx c rest Hs Hc Hsfx E.
    destruct (generated_path_parsed self input_path sfx Hs) as [_ N].
    rewrite E in N.
    rewrite PathFacts.name_stem_suffix in N. apply append_inj_l in N.
    rewrite Hsfx in N.
    destruct (suffix_shape (PurePath.parse input_path)) as [S | [(r & S) _]];
      rewrite S in N; [discriminate|]. injection N as N _. congruence. }
  split.
  - apply (G "_optimized" "_"%char "optimized.jpg"); [reflexivity | discriminate | reflexivity].
  - apply (G "_thumb" "_"%char "thumb.jpg"); [reflexivity | discriminate | reflexivity].
Qed.

(** X7.  [batch_optimize] passes over the entries whose name is only an
    extension, such as [.png]: a selected entry has a stem that is not empty,
    followed by a suffix that, lowercased, is one of the five, so the file it
    is written to is never just [.jpg]. *)
Theorem X7_selected_entries_have_a_stem :
  forall (file_path : PurePath.t),
    selected file_path = true ->
    PurePath.stem file_path <> "" /\
    PurePath.name file_path = PurePath.stem file_path ++ PurePath.suffix file_path /\
    In (PyStr.lower (PurePath.suffix file_path)) supported_formats /\
    PurePath.stem file_path ++ ".jpg" <> ".jpg".
Proof.
  intros f Hs. apply str_in_In in Hs.
  assert (Hne : PurePath.stem f <> "").
  { destruct (suffix_shape f) as [S | [_ S]]; [|exact S].
    rewrite S in Hs. cbn in Hs. intuition discriminate. }
  split; [exact Hne|]. split; [apply PathFacts.name_stem_suffix|].
  split; [exact Hs|].
  intros E. apply (f_equal String.length) in E.
  rewrite length_append in E. cbn [String.length] in E.
  destruct (PurePath.stem f); [congruence|]. cbn [String.length] in E. lia.
Qed.

(** X7 at an entry with an upper-case extension. *)
Lemma X7_selected_entries_have_a_stem_witness :
  PurePath.stem (PurePath.parse "comics/page2.JPG") <> "".
Proof.
  exact (proj1 (X7_selected_entries_have_a_stem (PurePath.parse "comics/page2.JPG")
                  eq_refl)).
Defined.

(** ** [get_image_info] *)

(** X8.  [get_image_info] only reads: in any world it converts, resizes,
    shrinks and saves nothing; and when it returns, it has opened the path,
    asked for its size on disk and closed the image, in that order, and what
    it returns is the width, height, format and mode of the opened image with
    that size on disk. *)
Theorem X8_get_image_info_reads_only :
  forall (W : Type) (h : world W) (self : ComicImageProcessor)
         (image_path : string) (w : W),
    let x := run h (get_image_info true self image_path) w in
    convert_calls (trace x) = [] /\ resize_calls (trace x) = [] /\
    thumbnail_calls (trace x) = [] /\ save_calls (trace x) = [] /\
    match outcome x with
    | Ok info =>
        exists img w1 size w2 u,
          h _ (Image_open image_path) w = (Ok img, w1) /\
          h _ (os_path_getsize image_path) w1 = (Ok size, w2) /\
          h _ (Image_close img) w2 = (Ok u, final x) /\
          info = {| ImageInfo.width := Image.width img;
                    ImageInfo.height := Image.height img;
                    ImageInfo.format := Image.format img;
                    ImageInfo.mode := Image.mode img;
                    ImageInfo.file_size := size |} /\
          trace x = [EvCall (Image_open image_path) (Ok img);
                     EvCall (os_path_getsize image_path) (Ok size);
                     EvCall (Image_close img) (Ok u)]
    | Err _ => True
    end.
Proof.
  intros W h self image_path w x. subst x.
  unfold get_image_info. run_simpl.
  destruct (h Image.t (Image_open image_path) w) as [[img | e] w1] eqn:E1;
    [|repeat split].
  run_simpl.
  destruct (h Z (os_path_getsize image_path) w1) as [[size | e] w2] eqn:E2;
    run_simpl;
    destruct (h unit (Image_close img) w2) as [[u | e'] w3] eqn:E3;
    run_simpl; repeat split.
  exists img, w1, size, w2, u. repeat split; assumption.
Qed.

(** ** [main] *)

Section MainFacts.
Context {W : Type} (h : world W).
Variables (pil : bool) (int : string -> result Z) (isdir isfile : string -> bool).
Variables (argv : list string) (options : Z * Z).
Hypothesis enough : (2 <= List.length argv)%nat.
Hypothesis parsed : scan_options int argv 1200 85 = Ok options.

(** In batch mode on a directory, [main] runs [batch_optimize] and ends with
    the count, or with the error of [batch_optimize]. *)
Lemma main_batch_run (w : W) :
  str_in "--batch" argv = true -> isdir (cli_input argv) = true ->
  run h (main pil int isdir isfile argv) w =
  match run h (batch_optimize pil (cli_processor options) (cli_input argv)
                 (cli_output argv)) w with
  | (Ok optimized, w1, t1) => (Ok 0, w1, (t1 ++ [EvPrint (summary_line optimized)])%list)
  | (Err e, w1, t1) => (Ok 1, w1, (t1 ++ [EvPrint ("Error: " ++ exn_str e)])%list)
  end.
Proof.
  intros Hb Hd. unfold main.
  replace (Z.of_nat (List.length argv) <? 2) with false
    by (symmetry; apply Z.ltb_ge; lia).
  rewrite parsed. cbn [lift bind]. destruct options as [width quality].
  rewrite Hb. fold (cli_input argv). rewrite Hd.
  fold (cli_output argv).
  change (__init__ (Some width) None (Some quality))
    with (cli_processor (width, quality)).
  rewrite run_try_except, run_bind.
  destruct (run h (batch_optimize pil (cli_processor (width, quality))
                     (cli_input argv) (cli_output argv)) w)
    as [[[optimized | e] w1] t1]; reflexivity.
Qed.

(** On a single file, [main] runs [optimize_image], then [get_image_info] on
    the path it returned, in the world it left, and prints the figures; the
    first exception ends the run with its message. *)
Lemma main_single_run (w : W) :
  str_in "--batch" argv = false -> isfile (cli_input argv) = true ->
  run h (main pil int isdir isfile argv) w =
  match run h (optimize_image pil (cli_processor options) (cli_input argv)
                 (cli_output argv)) w with
  | (Err e, w1, t1) => (Ok 1, w1, (t1 ++ [EvPrint ("Error: " ++ exn_str e)])%list)
  | (Ok result, w1, t1) =>
      let said := EvPrint ("Image optimized successfully: " ++ result) in
      match run h (get_image_info pil (cli_processor options) result) w1 with
      | (Err e, w2, t2) =>
          (Ok 1, w2, (t1 ++ said :: t2 ++ [EvPrint ("Error: " ++ exn_str e)])%list)
      | (Ok info, w2, t2) =>
          match int_truediv (ImageInfo.file_size info) 1024 with
          | Err e =>
              (Ok 1, w2,
               (t1 ++ said :: t2
                ++ map EvPrint (firstn 3 (info_lines info 0))
                ++ [EvPrint ("Error: " ++ exn_str e)])%list)
          | Ok kb =>
              (Ok 0, w2, (t1 ++ said :: t2 ++ map EvPrint (info_lines info kb))%list)
          end
      end
  end.
Proof.
  intros Hb Hf. unfold main.
  replace (Z.of_nat (List.length argv) <? 2) with false
    by (symmetry; apply Z.ltb_ge; lia).
  rewrite parsed. cbn [lift bind]. destruct options as [width quality].
  rewrite Hb. fold (cli_input argv). rewrite Hf.
  fold (cli_output argv).
  change (__init__ (Some width) None (Some quality))
    with (cli_processor (width, quality)).
  rewrite run_try_except, run_bind.
  destruct (run h (optimize_image pil (cli_processor (width, quality))
                     (cli_input argv) (cli_output argv)) w)
    as [[[result | e] w1] t1]; [|reflexivity].
  rewrite run_bind. cbn [run print]. rewrite run_bind.
  destruct (run h (get_image_info pil (cli_processor (width, quality)) result) w1)
    as [[[info | e] w2] t2]; cbv zeta.
  - cbn [run bind print].
    destruct (int_truediv (ImageInfo.file_size info) 1024) as [kb | e];
      cbn [run bind print lift info_lines firstn map app];
      repeat (rewrite <- app_assoc; cbn [app]); reflexivity.
  - cbn [run bind print app]. repeat (rewrite <- app_assoc; cbn [app]). reflexivity.
Qed.

End MainFacts.

Lemma startswith_append (p s : string) : PyStr.startswith p (p ++ s) = true.
Proof.
  induction p as [|c p IH]; cbn [PyStr.startswith append]; [reflexivity|].
  now rewrite Ascii.eqb_refl, IH.
Qed.

(** X9.  Without an argument, [main] prints the four usage lines and exits
    with status 1; it calls nothing and does not look at the file system. *)
Theorem X9_no_argument_prints_usage :
  forall (W : Type) (h : world W) (pil : bool) (int : string -> result Z)
         (isdir isfile : string -> bool) (argv : list string) (w : W),
    (List.length argv < 2)%nat ->
    run h (main pil int isdir isfile argv) w = (Ok 1, w, map EvPrint usage).
Proof.
  intros W h pil int isdir isfile argv w H. unfold main.
  replace (Z.of_nat (List.length argv) <? 2) with true
    by (symmetry; apply Z.ltb_lt; lia).
  reflexivity.
Qed.

(** X9 at the command line that is the program name alone. *)
Lemma X9_no_argument_prints_usage_witness :
  exit_status
    (outcome (run Sandbox.pillow
                (main true decimal_int (fun _ => false) (fun _ => false)
                   ["image_processor.py"]) Sandbox.comics)) = 1.
Proof.
  rewrite (X9_no_argument_prints_usage Sandbox.state Sandbox.pillow true decimal_int
             (fun _ => false) (fun _ => false) ["image_processor.py"] Sandbox.comics).
  - reflexivity.
  - cbn. lia.
Defined.

(** A path of the wrong kind stops [main] before any call. *)
Lemma wrong_kind_of_path {W} (h : world W) (pil : bool)
    (int : string -> result Z) (isdir isfile : string -> bool)
    (argv : list string) (options : Z * Z) (w : W) :
  (2 <= List.length argv)%nat ->
  scan_options int argv 1200 85 = Ok options ->
  (if str_in "--batch" argv then isdir (cli_input argv)
   else isfile (cli_input argv)) = false ->
  run h (main pil int isdir isfile argv) w =
  (Ok 1, w,
   [EvPrint (if str_in "--batch" argv
             then "Error: Batch mode requires a directory path"
             else "Error: Input file not found: " ++ cli_input argv)]).
Proof.
  intros Hlen Hopt Hkind. unfold main.
  replace (Z.of_nat (List.length argv) <? 2) with false
    by (symmetry; apply Z.ltb_ge; lia).
  rewrite Hopt. cbn [lift bind]. destruct options as [width quality].
  fold (cli_input argv).
  destruct (str_in "--batch" argv); rewrite Hkind; reflexivity.
Qed.

(** X10.  A path of the wrong kind: with options that parse, [--batch] on
    what is no directory, or no [--batch] on what is no file, ends [main] with
    the one line that says so and status 1, and nothing has been called. *)
Theorem X10_wrong_kind_of_path :
  forall (W : Type) (h : world W) (pil : bool) (int : string -> result Z)
         (isdir isfile : string -> bool) (argv : list string) (options : Z * Z) (w : W),
    (2 <= List.length argv)%nat ->
    scan_options int argv 1200 85 = Ok options ->
    (if str_in "--batch" argv then isdir (cli_input argv)
     else isfile (cli_input argv)) = false ->
    run h (main pil int isdir isfile argv) w =
    (Ok 1, w,
     [EvPrint (if str_in "--batch" argv
               then "Error: Batch mode requires a directory path"
               else "Error: Input file not found: " ++ cli_input argv)]).
Proof.
  intros W h pil int isdir isfile argv options w. apply wrong_kind_of_path.
Qed.

(** X10 at a batch run on a path that is no directory. *)
Lemma X10_wrong_kind_of_path_witness :
  printed (trace (run Sandbox.pillow
                    (main true decimal_int (fun _ => false) (fun _ => false)
                       ["image_processor.py"; "comics/page1.png"; "--batch"])
                    Sandbox.comics))
  = ["Error: Batch mode requires a directory path"].
Proof.
  rewrite (X10_wrong_kind_of_path Sandbox.state Sandbox.pillow true decimal_int
             (fun _ => false) (fun _ => false)
             ["image_processor.py"; "comics/page1.png"; "--batch"] (1200, 85)
             Sandbox.comics).
  - reflexivity.
  - cbn. lia.
  - reflexivity.
  - reflexivity.
Defined.

(** *** [main] on any standard output *)

Lemma last_app_nonempty {A} (l l' : list A) (d : A) :
  l' <> [] -> last (l ++ l') d = last l' d.
Proof.
  intros H. induction l as [|x l IH]; [reflexivity|].
  cbn [app last]. destruct (l ++ l')%list eqn:E; [|exact IH].
  apply app_eq_nil in E as [_ E]. contradiction.
Qed.

Lemma last_cons_nonempty {A} (x : A) (l : list A) (d : A) :
  l <> [] -> last (x :: l) d = last l d.
Proof. intros H. destruct l; [contradiction | reflexivity]. Qed.

Lemma app_nonempty_r {A} (l l' : list A) : l' <> [] -> (l ++ l')%list <> [].
Proof. intros H E. apply app_eq_nil in E as [_ E]. contradiction. Qed.

Ltac nonempty :=
  solve [discriminate | apply app_nonempty_r; nonempty].

(** The last line printed by a run whose trace ends with a printed line. *)
Ltac last_line :=
  cbn [outcome trace fst snd]; unfold printed;
  repeat first [rewrite flat_map_app | progress cbn [flat_map app]];
  repeat first [rewrite last_app_nonempty by nonempty
               | rewrite last_cons_nonempty by nonempty];
  cbn [last].

Section MainOnAnyOutput.
Context {W : Type} (out : stdout W) (h : world W).

(** The three ways [main] ends once the options have parsed. *)
Let ends_well (x : result Z * W * list event) : Prop :=
  let line := last (printed (trace x)) "" in
  (outcome x = Ok 0 /\
   (PyStr.startswith (nl ++ "Successfully optimized ") line = true \/
    PyStr.startswith "  File Size: " line = true)) \/
  (outcome x = Ok 1 /\ PyStr.startswith "Error: " line = true) \/
  (exists e failed,
      outcome x = Err e /\
      last (trace x) (EvPrint "") = EvPrintFailed failed e /\
      PyStr.startswith "Error: " failed = true).

(** The handler of [main]: it prints the error and exits with status 1, or
    its [print] raises. *)
Lemma main_handler_ends (e : exn) (w1 : W) (t1 : list event) :
  ends_well (let '(r, w2, t2) :=
               run_io out h (print ("Error: " ++ exn_str e) ;;; Ret 1) w1 in
             (r, w2, (t1 ++ t2)%list)).
Proof.
  cbn [run_io bind print].
  destruct (out ("Error: " ++ exn_str e) w1) as [[u | e'] w2]; cbn [run_io bind].
  - right. left. split; [reflexivity|]. last_line. apply startswith_append.
  - right. right. exists e', ("Error: " ++ exn_str e).
    split; [reflexivity|]. split; [|apply startswith_append].
    cbn [trace snd]. apply last_last.
Qed.

(** One [print] of [main]: the line is taken, or the exception goes to the
    handler. *)
Ltac io_print :=
  cbn [run_io bind print];
  match goal with
  | |- context [out ?l ?w] =>
      let u := fresh "u" in let e := fresh "e" in let w' := fresh "w" in
      destruct (out l w) as [[u | e] w']
  end;
  cbn [run_io bind].

Variables (pil : bool) (int : string -> result Z) (isdir isfile : string -> bool).
Variables (argv : list string) (options : Z * Z).
Hypothesis enough : (2 <= List.length argv)%nat.
Hypothesis parsed : scan_options int argv 1200 85 = Ok options.

Lemma main_ends (w : W) : ends_well (run_io out h (main pil int isdir isfile argv) w).
Proof.
  unfold main.
  replace (Z.of_nat (List.length argv) <? 2) with false
    by (symmetry; apply Z.ltb_ge; lia).
  rewrite parsed. cbn [lift bind]. destruct options as [width quality].
  rewrite run_io_try_except.
  destruct (str_in "--batch" argv).
  - destruct (isdir (nth 1 argv "")).
    + rewrite run_io_bind.
      destruct (run_io out h (batch_optimize pil _ _ _) w) as [[[optimized | e] w1] t1];
        [|apply main_handler_ends].
      io_print; [|apply main_handler_ends].
      left. split; [reflexivity|]. last_line. left.
      rewrite <- PathFacts.append_assoc. apply startswith_append.
    + io_print; [|apply (main_handler_ends _ _ [_])].
      right. left. split; reflexivity.
  - destruct (isfile (nth 1 argv "")).
    + rewrite run_io_bind.
      destruct (run_io out h (optimize_image pil _ _ _) w) as [[[result | e] w1] t1];
        [|apply main_handler_ends].
      io_print; [|apply main_handler_ends].
      rewrite run_io_bind.
      destruct (run_io out h (get_image_info pil _ _) _) as [[[info | e] w2] t2];
        [|apply main_handler_ends].
      io_print; [|apply main_handler_ends].
      io_print; [|apply main_handler_ends].
      io_print; [|apply main_handler_ends].
      destruct (int_truediv (ImageInfo.file_size info) 1024) as [kb | e];
        cbn [lift run_io bind]; [|apply main_handler_ends].
      io_print; [|apply main_handler_ends].
      left. split; [reflexivity|]. last_line. right. apply startswith_append.
    + io_print; [|apply (main_handler_ends _ _ [_])].
      right. left. split; reflexivity.
Qed.

End MainOnAnyOutput.

(** X11.  Once the options have parsed, [main] ends in one of three ways, in
    any world and on any standard output: with status 0, the last line
    printed being the count of a batch or the file size of a single run; with
    status 1, the last line printed being an [Error: ...] line; or with the
    exception of the [print] of the handler's [Error: ...] line, the last
    thing it did.  No other exception leaves [main]: what is raised inside
    the [try], by a [print] there included, goes to the handler. *)
Theorem X11_main_reports_every_error :
  forall (W : Type) (out : stdout W) (h : world W) (pil : bool)
         (int : string -> result Z) (isdir isfile : string -> bool)
         (argv : list string) (options : Z * Z) (w : W),
    (2 <= List.length argv)%nat ->
    scan_options int argv 1200 85 = Ok options ->
    let x := run_io out h (main pil int isdir isfile argv) w in
    let line := last (printed (trace x)) "" in
    (outcome x = Ok 0 /\
     (PyStr.startswith (nl ++ "Successfully optimized ") line = true \/
      PyStr.startswith "  File Size: " line = true)) \/
    (outcome x = Ok 1 /\ PyStr.startswith "Error: " line = true) \/
    (exists e failed,
        outcome x = Err e /\
        last (trace x) (EvPrint "") = EvPrintFailed failed e /\
        PyStr.startswith "Error: " failed = true).
Proof.
  intros W out h pil int isdir isfile argv options w Hlen Hopt.
  exact (main_ends out h pil int isdir isfile argv options Hlen Hopt w).
Qed.

(** X11 at a batch run over the example directory, into a pipe whose reader
    is gone: what leaves [main] is the exception of the handler's [print]. *)
Lemma X11_main_reports_every_error_witness :
  exists failed,
    last (trace (run_io broken_pipe Sandbox.pillow
                   (main true decimal_int (String.eqb "comics") (fun _ => false)
                      ["image_processor.py"; "comics"; "--batch"]) Sandbox.comics))
      (EvPrint "")
    = EvPrintFailed failed (LibraryError "BrokenPipeError" "[Errno 32] Broken pipe") /\
    PyStr.startswith "Error: " failed = true.
Proof.
  destruct (X11_main_reports_every_error Sandbox.state broken_pipe Sandbox.pillow true
              decimal_int (String.eqb "comics") (fun _ => false)
              ["image_processor.py"; "comics"; "--batch"] (1200, 85) Sandbox.comics)
    as [[E _] | [[E _] | (e & failed & E & L & S)]].
  - cbn. lia.
  - reflexivity.
  - vm_compute in E. discriminate E.
  - vm_compute in E. discriminate E.
  - exists failed. split; [|exact S].
    assert (Ee : Err e = Err (LibraryError "BrokenPipeError" "[Errno 32] Broken pipe")
                 :> result Z)
      by (rewrite <- E; vm_compute; reflexivity).
    injection Ee as ->. exact L.
Defined.

(** X12.  The values of [--width] and [--quality] are read before the [try]:
    when [int()] raises on one of them, the exception leaves [main] as it is,
    nothing is printed and nothing is called. *)
Theorem X12_option_error_is_not_caught :
  forall (W : Type) (h : world W) (pil : bool) (int : string -> result Z)
         (isdir isfile : string -> bool) (argv : list string) (e : exn) (w : W),
    (2 <= List.length argv)%nat ->
    scan_options int argv 1200 85 = Err e ->
    run h (main pil int isdir isfile argv) w = (Err e, w, []).
Proof.
  intros W h pil int isdir isfile argv e w Hlen Hopt. unfold main.
  replace (Z.of_nat (List.length argv) <? 2) with false
    by (symmetry; apply Z.ltb_ge; lia).
  rewrite Hopt. reflexivity.
Qed.

(** X12 at a width that is no number. *)
Lemma X12_option_error_is_not_caught_witness :
  printed (trace (run Sandbox.pillow
                    (main true decimal_int (fun _ => false) (fun _ => true)
                       ["image_processor.py"; "comics/page1.png"; "--width"; "wide"])
                    Sandbox.comics)) = [].
Proof.
  rewrite (X12_option_error_is_not_caught Sandbox.state Sandbox.pillow true decimal_int
             (fun _ => false) (fun _ => true)
             ["image_processor.py"; "comics/page1.png"; "--width"; "wide"]
             (LibraryError "ValueError"
                "invalid literal for int() with base 10: 'wide'")
             Sandbox.comics).
  - reflexivity.
  - cbn. lia.
  - reflexivity.
Defined.

(** Entries that all failed give no path. *)
Lemma successes_all_failed (output_dir : string) (e : exn) (l : list PurePath.t) :
  successes output_dir (map (fun f => (f, Err e)) l) = [].
Proof. induction l; [reflexivity | assumption]. Qed.

(** X13.  On a standard output that takes every line, a batch run ends with
    status 0 whatever became of the files: with options that parse, [--batch]
    and a directory whose output directory can be made and whose entries can
    be listed, [main] visits the entries, prints the count of those that
    succeeded as its last line and returns 0, also when [optimize_image]
    raised on every file; without Pillow the count is 0. *)
Theorem X13_batch_status_ignores_failures :
  forall (W : Type) (out : stdout W) (h : world W) (pil : bool)
         (int : string -> result Z) (isdir isfile : string -> bool)
         (argv : list string) (options : Z * Z)
         (w : W) (u : unit) (w1 : W) (names : list string) (w2 : W),
    accepts out ->
    (2 <= List.length argv)%nat ->
    scan_options int argv 1200 85 = Ok options ->
    str_in "--batch" argv = true ->
    isdir (cli_input argv) = true ->
    let dir := batch_target (cli_input argv) (cli_output argv) in
    let mk := Path_mkdir (PurePath.parse dir) true true in
    let ls := os_listdir (PurePath.parse (cli_input argv)) in
    h _ mk w = (Ok u, w1) ->
    h _ ls w1 = (Ok names, w2) ->
    exists log w' t,
      visits h pil (cli_processor options) dir
        (map (PurePath.make_child (PurePath.parse (cli_input argv))) names)
        w2 log w' t /\
      run_io out h (main pil int isdir isfile argv) w
      = (Ok 0, w',
         (EvCall mk (Ok u) :: EvCall ls (Ok names) :: t
          ++ [EvPrint (summary_line (successes dir log))])%list) /\
      List.length (successes dir log)
      = List.length (filter (fun x => is_ok (snd x)) log) /\
      (pil = false -> successes dir log = []).
Proof.
  intros W out h pil int isdir isfile argv options w u w1 names w2 Hout Hlen Hopt Hb Hd
         dir mk ls Hmk Hls.
  rewrite (run_io_accepts h out) by exact Hout.
  rewrite (main_batch_run h pil int isdir isfile argv options Hlen Hopt w Hb Hd).
  pose proof (batch_optimize_run h pil (cli_processor options) (cli_input argv)
                (cli_output argv) w) as R.
  cbv zeta in R. fold dir mk ls in R. rewrite Hmk, Hls in R.
  destruct R as (log & w' & t & V & R).
  exists log, w', t. rewrite R.
  split; [exact V|]. split; [reflexivity|]. split; [apply successes_length|].
  intros ->. apply visits_unavailable in V as (-> & _ & _).
  apply successes_all_failed.
Qed.

(** X13 at the example directory, where two of four files fail. *)
Lemma X13_batch_status_ignores_failures_witness :
  outcome (run_io every_line Sandbox.pillow
             (main true decimal_int (String.eqb "comics") (fun _ => false)
                ["image_processor.py"; "comics"; "--batch"]) Sandbox.comics)
  = Ok 0.
Proof.
  destruct (X13_batch_status_ignores_failures Sandbox.state every_line Sandbox.pillow
              true decimal_int (String.eqb "comics") (fun _ => false)
              ["image_processor.py"; "comics"; "--batch"] (1200, 85)
              Sandbox.comics tt Sandbox.comics
              ["page1.png"; "broken.png"; "notes.txt"; "page2.JPG"; "strip.bmp"]
              Sandbox.comics)
    as (log & w' & t & _ & R & _).
  - intros line w. reflexivity.
  - cbn. lia.
  - reflexivity.
  - reflexivity.
  - reflexivity.
  - reflexivity.
  - reflexivity.
  - rewrite R. reflexivity.
Defined.

(** X14.  A single run that succeeds: with options that parse, no [--batch]
    and an input that is a file, when [optimize_image] returns a path,
    [get_image_info] on that path, in the world [optimize_image] left,
    returns the figures, and the size divides, [main] prints the path, the
    dimensions, the format and the size in KB of the file written, and
    returns 0. *)
Theorem X14_single_run_reports_the_output :
  forall (W : Type) (h : world W) (pil : bool) (int : string -> result Z)
         (isdir isfile : string -> bool) (argv : list string) (options : Z * Z)
         (w : W) (result : string) (w1 : W) (t1 : list event)
         (info : ImageInfo.t) (w2 : W) (t2 : list event) (kb : float),
    (2 <= List.length argv)%nat ->
    scan_options int argv 1200 85 = Ok options ->
    str_in "--batch" argv = false ->
    isfile (cli_input argv) = true ->
    run h (optimize_image pil (cli_processor options) (cli_input argv)
             (cli_output argv)) w = (Ok result, w1, t1) ->
    run h (get_image_info pil (cli_processor options) result) w1 = (Ok info, w2, t2) ->
    int_truediv (ImageInfo.file_size info) 1024 = Ok kb ->
    run h (main pil int isdir isfile argv) w
    = (Ok 0, w2,
       (t1 ++ EvPrint ("Image optimized successfully: " ++ result)
           :: t2 ++ map EvPrint (info_lines info kb))%list) /\
    result = optimize_target (cli_processor options) (cli_input argv) (cli_output argv) /\
    max_height (cli_processor options) = 1800.
Proof.
  intros W h pil int isdir isfile argv options w result w1 t1 info w2 t2 kb
         Hlen Hopt Hb Hf Ro Ri Ekb.
  rewrite (main_single_run h pil int isdir isfile argv options Hlen Hopt w Hb Hf).
  rewrite Ro. cbv zeta. rewrite Ri, Ekb.
  split; [reflexivity|]. split; [|reflexivity].
  apply (optimize_image_returns h pil (cli_processor options) (cli_input argv)
           (cli_output argv) w result).
  now rewrite Ro.
Qed.

(** X14 at the 800x600 page of the example directory, written to [out.jpg]. *)
Lemma X14_single_run_reports_the_output_witness :
  outcome (run Sandbox.pillow
             (main true decimal_int (fun _ => false)
                (String.eqb "comics/page2.JPG")
                ["image_processor.py"; "comics/page2.JPG"; "out.jpg"])
             Sandbox.comics) = Ok 0.
Proof.
  pose (argv := ["image_processor.py"; "comics/page2.JPG"; "out.jpg"]).
  pose (x := run Sandbox.pillow
               (optimize_image true (cli_processor (1200, 85)) (cli_input argv)
                  (cli_output argv)) Sandbox.comics).
  pose (y := run Sandbox.pillow
               (get_image_info true (cli_processor (1200, 85)) "out.jpg") (final x)).
  pose (info := {| ImageInfo.width := 800; ImageInfo.height := 600;
                   ImageInfo.format := Some "JPEG"; ImageInfo.mode := "RGB";
                   ImageInfo.file_size := 0 |}).
  destruct (X14_single_run_reports_the_output Sandbox.state Sandbox.pillow true
              decimal_int (fun _ => false) (String.eqb "comics/page2.JPG")
              argv (1200, 85) Sandbox.comics "out.jpg" (final x) (trace x)
              info (final y) (trace y) 0) as (R & _).
  - cbn. lia.
  - reflexivity.
  - reflexivity.
  - reflexivity.
  - vm_compute. reflexivity.
  - vm_compute. reflexivity.
  - vm_compute. reflexivity.
  - fold argv. rewrite R. reflexivity.
Defined.

(** ** The options *)

(** X16.  Without [--width] and [--quality] among the arguments, the loop
    over them never calls [int()] and leaves the width and the quality as they
    were: [main] then works with the bounds 1200 by 1800 and the quality 85 of
    [__init__]. *)
Theorem X16_no_flag_keeps_defaults :
  forall (int : string -> result Z) (argv : list string) (width quality : Z),
    (forall arg, In arg argv -> arg <> "--width" /\ arg <> "--quality") ->
    scan_options int argv width quality = Ok (width, quality) /\
    cli_processor (1200, 85) = default_processor.
Proof.
  intros int argv width quality H. split; [|reflexivity].
  induction argv as [|arg rest IH]; [reflexivity|].
  assert (IH' : scan_options int rest width quality = Ok (width, quality))
    by (apply IH; intros a Ha; apply H; now right).
  destruct (H arg (or_introl eq_refl)) as [Hw Hq].
  apply String.eqb_neq in Hw, Hq.
  cbn [scan_options]. destruct rest as [|next rest']; [reflexivity|].
  rewrite Hw, Hq. exact IH'.
Qed.

(** X16 at a command line with an input, an output and [--batch]. *)
Lemma X16_no_flag_keeps_defaults_witness :
  scan_options decimal_int ["image_processor.py"; "comics"; "out"; "--batch"] 1200 85
  = Ok (1200, 85).
Proof.
  refine (proj1 (X16_no_flag_keeps_defaults decimal_int
                   ["image_processor.py"; "comics"; "out"; "--batch"] 1200 85 _)).
  intros arg Ha. cbn in Ha.
  repeat (destruct Ha as [<- | Ha]; [split; discriminate|]). destruct Ha.
Defined.

(** ** The file size in KB *)

Lemma rne_scale (k n d : Z) :
  0 < k -> 0 < d -> rne (k * n) (k * d) = rne n d.
Proof.
  intros Hk Hd. unfold rne.
  rewrite Z.div_mul_cancel_l by lia.
  rewrite Z.mul_mod_distr_l by lia.
  destruct (2 * (n mod d) <? d) eqn:E1;
    [apply Z.ltb_lt in E1 | apply Z.ltb_ge in E1].
  - replace (2 * (k * (n mod d)) <? k * d) with true
      by (symmetry; apply Z.ltb_lt; nia). reflexivity.
  - replace (2 * (k * (n mod d)) <? k * d) with false
      by (symmetry; apply Z.ltb_ge; nia).
    destruct (d <? 2 * (n mod d)) eqn:E2;
      [apply Z.ltb_lt in E2 | apply Z.ltb_ge in E2].
    + replace (k * d <? 2 * (k * (n mod d))) with true
        by (symmetry; apply Z.ltb_lt; nia). reflexivity.
    + replace (k * d <? 2 * (k * (n mod d))) with false
        by (symmetry; apply Z.ltb_ge; nia). reflexivity.
Qed.

(** X15.  The size that [main] prints is exact: for a file of up to 2^53
    bytes, [file_size / 1024] loses nothing as a float, and the figure
    printed with two decimals is the number of hundredths of a KB nearest to
    the true size, ties going to the even one; it is off by at most half a
    hundredth. *)
Theorem X15_file_size_is_rounded_once :
  forall (file_size : Z),
    0 <= file_size <= 2 ^ 53 ->
    let hundredths := rne (100 * file_size) 1024 in
    exists kb,
      int_truediv file_size 1024 = Ok kb /\
      kb * 1024 = file_size * one /\
      format_2f kb
      = str_of_int (hundredths / 100) ++ "."
        ++ str_of_int (hundredths mod 100 / 10) ++ str_of_int (hundredths mod 10) /\
      2 * Z.abs (1024 * hundredths - 100 * file_size) <= 1024.
Proof.
  intros file_size Hs hundredths.
  set (q := 2 ^ 1064).
  assert (Hq : 0 < q) by reflexivity.
  assert (E1 : one = q * 1024) by reflexivity.
  exists (file_size * q).
  assert (Hr : round (file_size * one) 1024 = file_size * q).
  { replace (file_size * one) with (file_size * q * 1024) by (rewrite E1; ring).
    apply Float64Facts.round_exact; [lia | nia |].
    apply Float64Facts.representable_scaled; [lia | lia]. }
  split; [|split; [rewrite E1; ring | split]].
  - rewrite Float64Facts.int_truediv_pos by lia. rewrite Hr.
    apply Float64Facts.finite_ok; [nia|].
    assert (2 ^ 53 * q < DBL_MAX * one) by reflexivity. nia.
  - unfold format_2f.
    replace (file_size * q <? 0) with false by (symmetry; apply Z.ltb_ge; nia).
    rewrite Z.abs_eq by nia.
    replace (rne (100 * (file_size * q)) one) with hundredths; [reflexivity|].
    unfold hundredths. rewrite E1.
    replace (100 * (file_size * q)) with (q * (100 * file_size)) by ring.
    symmetry. apply rne_scale; lia.
  - destruct (Float64Facts.rne_spec (100 * file_size) 1024 ltac:(lia) ltac:(lia))
      as [B [[E H] | [E H]]]; fold hundredths in E; rewrite E; lia.
Qed.

(** X15 at a file of 128 bytes, an eighth of a KB: the tie goes to 0.12. *)
Lemma X15_file_size_is_rounded_once_witness :
  exists kb, int_truediv 128 1024 = Ok kb /\ format_2f kb = "0.12".
Proof.
  destruct (X15_file_size_is_rounded_once 128) as (kb & E & _ & F & _).
  - lia.
  - exists kb. split; [exact E|]. rewrite F. vm_compute. reflexivity.
Defined.

(** ** Without Pillow, from the command line *)

(** X17.  Without Pillow, the script warns at its import and a single run on
    an existing file ends with the error of the missing library and status 1;
    no file is opened and none is written. *)
Theorem X17_single_run_without_pillow :
  forall (W : Type) (h : world W) (int : string -> result Z)
         (isdir isfile : string -> bool) (argv : list string) (options : Z * Z) (w : W),
    (2 <= List.length argv)%nat ->
    scan_options int argv 1200 85 = Ok options ->
    str_in "--batch" argv = false ->
    isfile (cli_input argv) = true ->
    run h (script false int isdir isfile argv) w
    = (Ok 1, w,
       [EvPrint "Warning: Pillow library not installed. Install with: pip install Pillow";
        EvPrint "Error: Pillow library is required for image processing"]).
Proof.
  intros W h int isdir isfile argv options w Hlen Hopt Hb Hf.
  unfold script. rewrite run_bind. cbn [run print].
  rewrite (main_single_run h false int isdir isfile argv options Hlen Hopt w Hb Hf).
  reflexivity.
Qed.

(** X17 at the 800x600 page of the example directory. *)
Lemma X17_single_run_without_pillow_witness :
  call_names
    (trace (run Sandbox.pillow
              (script false decimal_int (fun _ => false)
                 (String.eqb "comics/page2.JPG")
                 ["image_processor.py"; "comics/page2.JPG"]) Sandbox.comics)) = [].
Proof.
  rewrite (X17_single_run_without_pillow Sandbox.state Sandbox.pillow decimal_int
             (fun _ => false) (String.eqb "comics/page2.JPG")
             ["image_processor.py"; "comics/page2.JPG"] (1200, 85) Sandbox.comics).
  - reflexivity.
  - cbn. lia.
  - reflexivity.
  - reflexivity.
  - reflexivity.
Defined.

(** ** Bounds beyond the floats *)



(** ** Nothing is written after a failure *)

(** X19.  [optimize_image] and [create_thumbnail] try to write only when all
    went well before: in a run where [Image.open], [convert], [resize] or
    [thumbnail] raised, no [save] is attempted; in a run with a [save], the
    only calls that can have raised are that [save] and the [close] after
    it. *)
Theorem X19_no_save_after_a_failure :
  forall (W : Type) (h : world W) (pil : bool) (self : ComicImageProcessor)
         (input_path : string) (output_path : option string)
         (size : option (Z * Z)) (w : W),
    Forall (fun t => save_calls t = [] \/
                     Forall (fun name => name = "save" \/ name = "close")
                       (failed_calls t))
      [trace (run h (optimize_image pil self input_path output_path) w);
       trace (run h (create_thumbnail pil self input_path output_path size) w)].
Proof.
  intros W h pil self input_path output_path size w.
  unfold optimize_image, create_thumbnail.
  destruct pil; run_simpl; [|repeat constructor].
  apply Forall_cons; [|apply Forall_cons; [|apply Forall_nil]].
  all: run_all h.
  all: cbn [save_calls failed_calls flat_map app call_name].
  all: first [left; reflexivity
             | right;
               repeat (apply Forall_cons;
                       [first [left; reflexivity | right; reflexivity]|]);
               apply Forall_nil].
Qed.

(** ** The directories of a batch *)

(** X20.  [batch_optimize] raises in three ways and no other, on any standard
    output.  The two directory calls are outside the [try] of its loop: when
    the output directory cannot be made, that exception leaves it and the
    input directory is not listed; when the input directory cannot be listed,
    that exception leaves it, the output directory having been made already.
    The third is the [print] of an [Error processing] line, in the handler of
    the loop: its exception leaves the method, as the last thing that
    happened.  An exception of [optimize_image] never does. *)
Theorem X20_directory_errors_abort_the_batch :
  forall (W : Type) (out : stdout W) (h : world W) (pil : bool)
         (self : ComicImageProcessor) (input_dir : string) (output_dir : option string)
         (w : W),
    let dir := batch_target input_dir output_dir in
    let mk := Path_mkdir (PurePath.parse dir) true true in
    let ls := os_listdir (PurePath.parse input_dir) in
    let x := run_io out h (batch_optimize pil self input_dir output_dir) w in
    (forall e w1, h _ mk w = (Err e, w1) -> x = (Err e, w1, [EvCall mk (Err e)])) /\
    (forall u w1 e w2,
        h _ mk w = (Ok u, w1) -> h _ ls w1 = (Err e, w2) ->
        x = (Err e, w2, [EvCall mk (Ok u); EvCall ls (Err e)])) /\
    (forall e, outcome x = Err e ->
        trace x = [EvCall mk (Err e)] \/
        (exists u, trace x = [EvCall mk (Ok u); EvCall ls (Err e)]) \/
        (exists line, last (trace x) (EvPrint "") = EvPrintFailed line e /\
                      PyStr.startswith "Error processing " line = true)).
Proof.
  intros W out h pil self input_dir output_dir w dir mk ls x.
  subst x. unfold batch_optimize.
  change (match output_dir with
          | Some d => d
          | None => os_path_join input_dir "optimized"
          end) with dir.
  fold mk ls. cbn [run_io bind call_].
  destruct (h unit mk w) as [[u | e] w1] eqn:E1; cbn [run_io bind].
  - destruct (h (list string) ls w1) as [[names | e] w2] eqn:E2; cbn [run_io bind].
    + split; [intros; discriminate|]. split.
      * intros u' w1' e' w2' E. injection E as <- <-. rewrite E2. discriminate.
      * intros e He. right. right.
        pose proof (batch_loop_raises out h pil self dir
                      (map (PurePath.make_child (PurePath.parse input_dir)) names)
                      [] w2 e) as R.
        destruct (run_io out h
                    (batch_loop pil self dir
                       (map (PurePath.make_child (PurePath.parse input_dir)) names) [])
                    w2) as [[r w3] t3].
        cbn [outcome trace fst snd] in *.
        destruct (R He) as (line & Hl & Hs). exists line. split; [|exact Hs].
        now apply (last_failed [_; _]).
    + split; [intros; discriminate|]. split.
      * intros u' w1' e' w2' E. injection E as <- <-. rewrite E2.
        intros E. injection E as <- <-. reflexivity.
      * intros e' [= <-]. right. left. now exists u.
  - split.
    + intros e' w1' E. injection E as <- <-. reflexivity.
    + split; [intros; discriminate|]. intros e' [= <-]. now left.
Qed.

(** X20 at the example directory, into a pipe whose reader is gone: the
    first file is written, its [Optimized] line cannot be printed, and neither
    can the [Error processing] line for it. *)
Lemma X20_directory_errors_abort_the_batch_witness :
  exists line,
    last (trace (run_io broken_pipe Sandbox.pillow
                   (batch_optimize true default_processor "comics" None)
                   Sandbox.comics)) (EvPrint "")
    = EvPrintFailed line (LibraryError "BrokenPipeError" "[Errno 32] Broken pipe") /\
    PyStr.startswith "Error processing " line = true.
Proof.
  destruct (X20_directory_errors_abort_the_batch Sandbox.state broken_pipe
              Sandbox.pillow true default_processor "comics" None Sandbox.comics)
    as (_ & _ & H).
  destruct (H (LibraryError "BrokenPipeError" "[Errno 32] Broken pipe"))
    as [N | [(u & N) | N]].
  - vm_compute. reflexivity.
  - vm_compute in N. discriminate N.
  - vm_compute in N. discriminate N.
  - exact N.
Defined.

(** ** Options given twice, or without a value *)

Lemma rbind_assoc {A B C} (r : result A) (f : A -> result B) (g : B -> result C) :
  rbind (rbind r f) g = rbind r (fun x => rbind (f x) g).
Proof. now destruct r. Qed.

Section Options.
Variable int : string -> result Z.

(** What follows an argument that is no option is scanned on its own, from
    the width and the quality reached before it. *)
Lemma scan_options_app (argv rest : list string) (width quality : Z) :
  last argv "" <> "--width" -> last argv "" <> "--quality" ->
  scan_options int (argv ++ rest) width quality
  = rbind (scan_options int argv width quality)
      (fun o => scan_options int rest (fst o) (snd o)).
Proof.
  revert width quality.
  induction argv as [|arg more IH]; intros width quality Hw Hq; [reflexivity|].
  destruct more as [|next more'].
  - cbn [last] in Hw, Hq. apply String.eqb_neq in Hw, Hq.
    cbn [app scan_options rbind fst snd].
    destruct rest as [|t rest']; [reflexivity|]. now rewrite Hw, Hq.
  - assert (IH' : forall width quality,
               scan_options int ((next :: more') ++ rest) width quality
               = rbind (scan_options int (next :: more') width quality)
                   (fun o => scan_options int rest (fst o) (snd o)))
      by (intros; apply IH; assumption).
    change (scan_options int ((arg :: next :: more') ++ rest) width quality)
      with (if String.eqb arg "--width" then
              rbind (int next) (fun width =>
                scan_options int ((next :: more') ++ rest) width quality)
            else if String.eqb arg "--quality" then
              rbind (int next) (fun quality =>
                scan_options int ((next :: more') ++ rest) width quality)
            else scan_options int ((next :: more') ++ rest) width quality).
    change (scan_options int (arg :: next :: more') width quality)
      with (if String.eqb arg "--width" then
              rbind (int next) (fun width =>
                scan_options int (next :: more') width quality)
            else if String.eqb arg "--quality" then
              rbind (int next) (fun quality =>
                scan_options int (next :: more') width quality)
            else scan_options int (next :: more') width quality).
    destruct (String.eqb arg "--width");
      [|destruct (String.eqb arg "--quality")];
      rewrite ?rbind_assoc; try apply IH';
      destruct (int next); cbn [rbind]; try reflexivity; apply IH'.
Qed.

End Options.

(** X21.  After arguments that do not end on [--width] or [--quality]: one
    more argument, an option without its value included, changes nothing;
    [--width] and a value set the width to that value whatever was given
    before, the quality staying as it was, and [--quality] likewise: of an
    option given twice the last counts, and [int()] is called on the earlier
    values first. *)
Theorem X21_last_option_wins :
  forall (int : string -> result Z) (argv : list string) (flag value : string)
         (width quality : Z),
    last argv "" <> "--width" -> last argv "" <> "--quality" ->
    scan_options int (argv ++ [flag]) width quality
    = scan_options int argv width quality /\
    scan_options int (argv ++ ["--width"; value]) width quality
    = rbind (scan_options int argv width quality)
        (fun o => rbind (int value) (fun n => Ok (n, snd o))) /\
    scan_options int (argv ++ ["--quality"; value]) width quality
    = rbind (scan_options int argv width quality)
        (fun o => rbind (int value) (fun n => Ok (fst o, n))).
Proof.
  intros int argv flag value width quality Hw Hq.
  rewrite !scan_options_app by assumption.
  destruct (scan_options int argv width quality) as [[w q] | e];
    cbn [rbind fst snd scan_options String.eqb Ascii.eqb Bool.eqb];
    repeat split; destruct (int value); reflexivity.
Qed.

(** X21 at a width given twice. *)
Lemma X21_last_option_wins_witness :
  scan_options decimal_int
    (["image_processor.py"; "page.png"; "--width"; "800"] ++ ["--width"; "640"]) 1200 85
  = Ok (640, 85).
Proof.
  destruct (X21_last_option_wins decimal_int
              ["image_processor.py"; "page.png"; "--width"; "800"] "--batch" "640"
              1200 85) as (_ & H & _).
  - discriminate.
  - discriminate.
  - rewrite H. reflexivity.
Defined.

(** ** A batch into its own directory *)

Lemma split_at_separator (sep : ascii) (a b : string) :
  PyStr.split sep (a ++ String sep b) = (PyStr.split sep a ++ PyStr.split sep b)%list.
Proof.
  induction a as [|c a IH]; cbn [append PyStr.split].
  - rewrite Ascii.eqb_refl. reflexivity.
  - destruct (Ascii.eqb c sep); [now rewrite IH|].
    rewrite IH. destruct (PyStr.split sep a) eqn:E; [|reflexivity].
    now apply PathFacts.split_not_nil in E.
Qed.

Lemma endswith_slash (a : string) :
  PyStr.endswith "/" a = true -> exists a', a = a' ++ "/".
Proof.
  induction a as [|c a IH]; cbn [PyStr.endswith]; [discriminate|].
  intros H. apply orb_true_iff in H as [H | H].
  - apply String.eqb_eq in H. exists "". now rewrite <- H.
  - destruct (IH H) as (a' & ->). now exists (String c a').
Qed.

(** [os.path.join] keeps the root of the directory: it adds no slash to a
    directory that ends with one. *)
Lemma root_append (dir rest : string) (c : ascii) :
  dir <> "" -> Ascii.eqb c "/" = false ->
  PurePath.root
    (PurePath.parse (if PyStr.endswith "/" dir then dir ++ String c rest
                     else dir ++ "/" ++ String c rest))
  = PurePath.root (PurePath.parse dir).
Proof.
  intros Hd Hc. assert (Hc' : Ascii.eqb "/" c = false) by now rewrite Ascii.eqb_sym.
  unfold PurePath.parse.
  destruct dir as [|x [|y [|z d]]]; [congruence| | |].
  - destruct (Ascii.eqb_spec "/" x) as [<-|Ex].
    + change (PyStr.endswith "/" "/") with true.
      cbn [append PyStr.startswith PurePath.root].
      rewrite Ascii.eqb_refl, Hc'. reflexivity.
    + apply Ascii.eqb_neq in Ex.
      destruct (PyStr.endswith "/" (String x ""));
        cbn [append PyStr.startswith PurePath.root]; rewrite Ex; reflexivity.
  - destruct (PyStr.endswith "/" (String x (String y ""))) eqn:E;
      cbn [append PyStr.startswith PurePath.root];
      destruct (Ascii.eqb "/" x) eqn:Ex; cbn [andb negb]; try reflexivity;
      destruct (Ascii.eqb "/" y) eqn:Ey; cbn [andb negb]; try reflexivity.
    + now rewrite Hc'.
    + apply Ascii.eqb_eq in Ey. subst y. cbn in E.
      rewrite orb_true_r in E. discriminate.
  - destruct (PyStr.endswith "/" (String x (String y (String z d))));
      cbn [append PyStr.startswith PurePath.root]; reflexivity.
Qed.

(** Joined to a directory, a single component is the child of that name. *)
Lemma join_child (dir name : string) :
  PurePath.component name ->
  PurePath.parse (os_path_join dir name)
  = PurePath.make_child (PurePath.parse dir) name.
Proof.
  intros Hc. destruct (PathFacts.component_nonempty name Hc) as (c & s & E & Hne).
  destruct Hc as [Hno Hk].
  assert (S0 : PyStr.startswith "/" name = false).
  { rewrite E. cbn [PyStr.startswith]. now rewrite Ascii.eqb_sym, Hne. }
  unfold os_path_join. rewrite S0.
  destruct (String.eqb_spec dir "") as [-> | Hd].
  - cbn [orb append]. unfold PurePath.make_child, PurePath.parse.
    rewrite S0. rewrite (PathFacts.split_one "/" name Hno).
    cbn [filter]. rewrite Hk. reflexivity.
  - cbn [orb].
    assert (R := root_append dir s c Hd Hne). rewrite <- E in R.
    unfold PurePath.make_child. rewrite <- R.
    destruct (PyStr.endswith "/" dir) eqn:Ee; unfold PurePath.parse at 1; f_equal.
    + destruct (endswith_slash dir Ee) as (a' & ->).
      rewrite PathFacts.append_assoc.
      change ("/" ++ name) with (String "/" name).
      cbn [PurePath.parse PurePath.parts].
      rewrite !split_at_separator, !filter_app.
      rewrite (PathFacts.split_one "/" name Hno).
      cbn [PyStr.split filter PurePath.kept]. rewrite Hk.
      change (PurePath.kept "") with false. now rewrite app_nil_r.
    + change ("/" ++ name) with (String "/" name).
      cbn [PurePath.parse PurePath.parts].
      rewrite split_at_separator, filter_app.
      rewrite (PathFacts.split_one "/" name Hno).
      cbn [filter]. now rewrite Hk.
Qed.

(** X22.  For the entry [name] of the directory [dir], a batch whose output
    directory is [dir] itself writes to the entry of [dir] named by the stem
    and [.jpg]; so an entry with the suffix [.jpg] is selected and is written
    over itself: the path it is read from and the path it is written to are
    the same path.  ([optimize_image] without an output path never does that,
    see X6.) *)
Theorem X22_same_directory_overwrites :
  forall (dir name : string),
    PurePath.component name ->
    let file_path := PurePath.make_child (PurePath.parse dir) name in
    PurePath.parse (PurePath.str file_path) = file_path /\
    PurePath.parse (batch_output_path dir file_path)
    = PurePath.make_child (PurePath.parse dir) (PurePath.stem file_path ++ ".jpg") /\
    (PurePath.suffix file_path = ".jpg" ->
     selected file_path = true /\
     PurePath.parse (batch_output_path dir file_path) = file_path).
Proof.
  intros dir name Hc file_path.
  assert (WF : PurePath.well_formed file_path).
  { destruct (PathFacts.parse_well_formed dir) as [Hr Hps].
    split; [exact Hr|]. cbn [PurePath.parts PurePath.make_child file_path].
    apply Forall_app. split; [exact Hps | now constructor]. }
  assert (J : PurePath.parse (batch_output_path dir file_path)
              = PurePath.make_child (PurePath.parse dir)
                  (PurePath.stem file_path ++ ".jpg")).
  { apply join_child.
    apply (PathFacts.output_name_component file_path "" WF). reflexivity. }
  split; [now apply PathFacts.parse_str|]. split; [exact J|].
  intros Hs. split.
  - unfold selected. rewrite Hs. reflexivity.
  - rewrite J. rewrite <- Hs, <- PathFacts.name_stem_suffix.
    destruct (PathFacts.child_parent_name (PurePath.parse dir) name) as [_ N].
    cbv zeta in N. fold (PurePath.make_child (PurePath.parse dir) name) in N.
    fold file_path in N. rewrite N. reflexivity.
Qed.

(** X22 at the entry [cover.jpg] of [comics]. *)
Lemma X22_same_directory_overwrites_witness :
  PurePath.parse (batch_output_path "comics" (PurePath.parse "comics/cover.jpg"))
  = PurePath.parse "comics/cover.jpg".
Proof.
  destruct (X22_same_directory_overwrites "comics" "cover.jpg") as (_ & _ & H).
  - split; reflexivity.
  - apply H. reflexivity.
Defined.

(** ** The runs that return *)

(** X23.  A run of [create_thumbnail] that returns has made these calls and
    no other, in this order: [Image.open]; [convert] to [RGB] when the mode
    is [RGBA], [LA] or [P]; [thumbnail] on the image so far, with the size
    given ((400, 600) without one) and the Lanczos filter; [save] of what
    [thumbnail] left, to the path returned, as JPEG at quality 90; [close] of
    the image that was opened. *)
Theorem X23_thumbnail_run :
  forall (W : Type) (h : world W) (self : ComicImageProcessor)
         (input_path : string) (output_path : option string) (size : option (Z * Z))
         (w : W) (img : Image.t) (w1 : W) (p : string),
    h _ (Image_open input_path) w = (Ok img, w1) ->
    let x := run h (create_thumbnail true self input_path output_path size) w in
    let box := match size with Some s => s | None => (400, 600) end in
    outcome x = Ok p ->
    exists im small u1 u2,
      trace x
      = (EvCall (Image_open input_path) (Ok img)
           :: (if str_in (Image.mode img) ["RGBA"; "LA"; "P"]
               then [EvCall (Image_convert img "RGB") (Ok im)] else [])
           ++ [EvCall (Image_thumbnail im box LANCZOS) (Ok small);
               EvCall (Image_save small p "JPEG" 90 true) (Ok u1);
               EvCall (Image_close img) (Ok u2)])%list /\
      (str_in (Image.mode img) ["RGBA"; "LA"; "P"] = false -> im = img) /\
      p = thumbnail_target self input_path output_path.
Proof.
  intros W h self input_path output_path size w img w1 p Hopen x box. subst x box.
  unfold create_thumbnail. run_simpl. rewrite Hopen.
  run_all h.
  all: try (intros; discriminate).
  all: intros Hp; injection Hp as <-.
  all: match goal with
       | |- context [EvCall (Image_thumbnail ?im _ _) (Ok ?s)
                       :: EvCall (Image_save _ _ _ _ _) (Ok ?u1)
                       :: EvCall (Image_close _) (Ok ?u2) :: nil] =>
           exists im, s, u1, u2
       end.
  all: repeat split; congruence.
Qed.

(** X23 at the 2400x3600 page of the example directory, in mode [RGBA]. *)
Lemma X23_thumbnail_run_witness :
  exists im,
    thumbnail_calls
      (trace (run Sandbox.pillow
                (create_thumbnail true default_processor "comics/page1.png" None None)
                Sandbox.comics))
    = [(im, (400, 600), LANCZOS)].
Proof.
  destruct (X23_thumbnail_run Sandbox.state Sandbox.pillow default_processor
              "comics/page1.png" None None Sandbox.comics
              (Sandbox.picture "RGBA" 2400 3600) Sandbox.comics
              "comics/page1_thumb.jpg" eq_refl eq_refl)
    as (im & small & u1 & u2 & T & _).
  exists im. rewrite T. reflexivity.
Defined.

(** X24.  A run of [optimize_image] that returns has made these calls and no
    other, in this order: [Image.open]; [convert] to [RGB] when the mode is
    [RGBA], [LA] or [P]; [resize] of the image so far, exactly when its size
    has a ratio below 1.0, to the size computed from it and with the Lanczos
    filter; [save] of the resized image, or of the image so far when there
    was no resize, to the path returned, as JPEG at the processor's quality;
    [close] of the image that was opened.  The ratio and the new size were
    computed without an exception. *)
Theorem X24_optimize_run :
  forall (W : Type) (h : world W) (self : ComicImageProcessor)
         (input_path : string) (output_path : option string)
         (w : W) (img : Image.t) (w1 : W) (p : string),
    h _ (Image_open input_path) w = (Ok img, w1) ->
    let x := run h (optimize_image true self input_path output_path) w in
    outcome x = Ok p ->
    exists im final_image resized u1 u2,
      trace x
      = (EvCall (Image_open input_path) (Ok img)
           :: (if str_in (Image.mode img) ["RGBA"; "LA"; "P"]
               then [EvCall (Image_convert img "RGB") (Ok im)] else [])
           ++ resized
           ++ [EvCall (Image_save final_image p "JPEG" (quality self) true) (Ok u1);
               EvCall (Image_close img) (Ok u2)])%list /\
      (str_in (Image.mode img) ["RGBA"; "LA"; "P"] = false -> im = img) /\
      match resize_plan self (Image.size im) with
      | Ok (Some new_size) =>
          resized = [EvCall (Image_resize im new_size LANCZOS) (Ok final_image)]
      | Ok None => resized = [] /\ final_image = im
      | Err _ => False
      end /\
      p = optimize_target self input_path output_path.
Proof.
  intros W h self input_path output_path w img w1 p Hopen x. subst x.
  unfold optimize_image. run_simpl. rewrite Hopen.
  run_all h.
  all: try (intros; discriminate).
  all: intros Hp; injection Hp as <-.
  all: match goal with
       | |- context [EvCall (Image_resize ?im ?sz ?f) (Ok ?s)
                       :: EvCall (Image_save _ _ _ _ _) (Ok ?u1)
                       :: EvCall (Image_close _) (Ok ?u2) :: nil] =>
           exists im, s, [EvCall (Image_resize im sz f) (Ok s)], u1, u2
       | |- context [EvCall (Image_save ?im _ _ _ _) (Ok ?u1)
                       :: EvCall (Image_close _) (Ok ?u2) :: nil] =>
           exists im, im, [], u1, u2
       end.
  all: split; [reflexivity|]; split; [congruence|]; split; [|reflexivity].
  all: plan_known; auto.
Qed.

(** X24 at the 800x600 page of the example directory, within the bounds. *)
Lemma X24_optimize_run_witness :
  call_names
    (trace (run Sandbox.pillow
              (optimize_image true default_processor "comics/page2.JPG" None)
              Sandbox.comics))
  = ["Image.open"; "save"; "close"].
Proof.
  destruct (X24_optimize_run Sandbox.state Sandbox.pillow default_processor
              "comics/page2.JPG" None Sandbox.comics
              (Sandbox.picture "RGB" 800 600) Sandbox.comics
              "comics/page2_optimized.jpg" eq_refl eq_refl)
    as (im & fin & rsz & u1 & u2 & T & Him & Hplan & _).
  specialize (Him eq_refl). subst im.
  vm_compute in Hplan. destruct Hplan as [-> ->].
  rewrite T. reflexivity.
Defined.
